(** * Credential sharing and tag relations of the n8n CLI package

    A shallow embedding of

    - the class [EECredentialsService] ([isOwned], [share], [unshare]),
      the second document of [src/packages/cli/src/CurlConverter.d.ts], and
    - the tag helpers of [src/unnamed/part_000] ([sortByRequestOrder],
      [checkRelated], [exists], [validateName], [validateRelations],
      [getAllTagsWithUsageCount]),

    together with the properties of these functions.

    Every [async] function is a computation in the monad [M] below: it
    reads and writes the relational store, may throw, and leaves behind the
    list of statements it sent to the store. *)

From Stdlib Require Import ZArith String List Lia.
From Stdlib Require Import Ascii.
From stdpp Require Import base tactics option list strings pretty gmap.

Set Warnings "-register-all".
Local Open Scope string_scope.
Local Open Scope list_scope.
Local Open Scope Z_scope.

(** * JavaScript values *)

(** The values a request body can hold: what [unknown] ranges over in
    [validateName].  A character of a Rocq string stands for one UTF-16 code
    unit, so that [String.length] is the [length] property of the string. *)
Inductive JsValue : Type :=
  | JsUndefined
  | JsNull
  | JsBoolean (b : bool)
  | JsNumber (n : Z)
  | JsString (s : string)
  | JsArray (items : list JsValue)
  | JsObject (props : list (string * JsValue)).

(** The [typeof] operator. *)
Definition typeof (v : JsValue) : string :=
  match v with
  | JsUndefined => "undefined"
  | JsNull => "object"
  | JsBoolean _ => "boolean"
  | JsNumber _ => "number"
  | JsString _ => "string"
  | JsArray _ => "object"
  | JsObject _ => "object"
  end.

(** [v === undefined]. *)
Definition isUndefined (v : JsValue) : bool :=
  match v with JsUndefined => true | _ => false end.

(** The string a value narrows to once [typeof v === 'string'] is known. *)
Definition asString (v : JsValue) : string :=
  match v with JsString s => s | _ => "" end.

(** [Number.prototype.toString] on the integer keys the store hands out. *)
Definition toString (n : Z) : string := pretty n.

(** * Errors *)

(** [new ResponseHelper.ResponseError(message, errorCode, httpStatusCode)];
    an argument passed as [undefined] is [None]. *)
Record ResponseError : Type := mkResponseError {
  message : string;
  errorCode : option Z;
  httpStatusCode : option Z
}.

(** What an operation can throw: a [ResponseError] of its own, or the
    failure of the role lookup. *)
Inductive Exception : Type :=
  | Response (e : ResponseError)
  | RoleLookupFailure (scope name : string).

(** * Entities and the relational store *)

(** [ITagDb]: a row of [tag_entity].  [formatTagsResponse] documents the
    four columns; the timestamps are seconds since the epoch. *)
Record ITagDb : Type := mkTag {
  tag_id : Z;
  tag_name : string;
  createdAt : Z;
  updatedAt : Z
}.

(** A row of the link table [workflows_tags]. *)
Record WorkflowsTags : Type := mkLink {
  link_workflowId : Z;
  link_tagId : Z
}.

(** A row of [workflow_entity]; only its key takes part in the queries. *)
Record WorkflowEntity : Type := mkWorkflow {
  workflow_id : Z;
  workflow_name : string
}.

(** [Role]: reference data, identified by scope and name. *)
Record Role : Type := mkRole {
  role_scope : string;
  role_name : string
}.

(** [User]: the identity, and the global role that the global-owner
    override looks at. *)
Record User : Type := mkUser {
  user_id : string;
  globalRole : Role
}.

(** [CredentialsEntity]: the key and an opaque payload. *)
Record CredentialsEntity : Type := mkCredentials {
  credentials_id : string;
  credentials_payload : string
}.

(** [SharedCredentials]: the join entity, as [share] builds it. *)
Record SharedCredentials : Type := mkSharing {
  credentials : CredentialsEntity;
  user : User;
  role : Role
}.

(** The Relation Store: the tables the two services query. *)
Record Db : Type := mkDb {
  tag_entity : list ITagDb;
  workflows_tags : list WorkflowsTags;
  workflow_entity : list WorkflowEntity;
  shared_credentials : list SharedCredentials;
  roles : list Role
}.

#[global] Instance ITagDb_eq_dec : EqDecision ITagDb.
Proof. solve_decision. Defined.
#[global] Instance WorkflowsTags_eq_dec : EqDecision WorkflowsTags.
Proof. solve_decision. Defined.
#[global] Instance WorkflowEntity_eq_dec : EqDecision WorkflowEntity.
Proof. solve_decision. Defined.
#[global] Instance Role_eq_dec : EqDecision Role.
Proof. solve_decision. Defined.
#[global] Instance User_eq_dec : EqDecision User.
Proof. solve_decision. Defined.
#[global] Instance CredentialsEntity_eq_dec : EqDecision CredentialsEntity.
Proof. solve_decision. Defined.
#[global] Instance SharedCredentials_eq_dec : EqDecision SharedCredentials.
Proof. solve_decision. Defined.

(** The statements the services send to the store, recorded in the order
    they are sent. *)
Inductive Statement : Type :=
  | SelectWorkflowsTags (workflowId tagId : string)
  | FindOneTag (id : string)
  | SelectTagsWithUsageCount
  | FindOneSharedCredentials (credentialId : string) (userId : option string)
      (relations : list string)
  | FindOneRole (scope name : string)
  | SaveSharedCredentials (row : SharedCredentials)
  | DeleteSharedCredentials (credentialId userId : string).

(** * The monad of store operations *)

(** The result of running an operation: what it returned or threw, the
    store it left, and the statements it sent. *)
Record Run (A : Type) : Type := mkRun {
  outcome : Exception + A;
  store : Db;
  issued : list Statement
}.
Arguments mkRun {A} _ _ _.
Arguments outcome {A} _.
Arguments store {A} _.
Arguments issued {A} _.

Definition M (A : Type) : Type := Db -> Run A.

#[global] Instance M_ret : MRet M := fun A a db => mkRun (inr a) db [].

#[global] Instance M_bind : MBind M := fun A B f m db =>
  let r := m db in
  match outcome r with
  | inl e => mkRun (inl e) (store r) (issued r)
  | inr a =>
      let r' := f a (store r) in
      mkRun (outcome r') (store r') (issued r ++ issued r')
  end.

(** [throw e]. *)
Definition throw {A : Type} (e : Exception) : M A :=
  fun db => mkRun (inl e) db [].

(** A read-only statement: it is recorded, and answers from the store. *)
Definition query {A : Type} (q : Statement) (answer : Db -> A) : M A :=
  fun db => mkRun (inr (answer db)) db [q].

(** A statement that changes the store. *)
Definition execute {A : Type} (q : Statement) (change : Db -> Db) (answer : Db -> A) : M A :=
  fun db => mkRun (inr (answer db)) (change db) [q].

(** * TagHelpers.ts *)

Definition TAG_NAME_LENGTH_LIMIT : Z := 24.

(** [validateName(name: unknown)]: the three guards, in the order of the
    source. *)
Definition validateName (name : JsValue) : M unit :=
  if isUndefined name then
    throw (Response (mkResponseError "Property 'name' missing from request body." None (Some 400)))
  else if negb (String.eqb (typeof name) "string") then
    throw (Response (mkResponseError "Property 'name' must be a string." None (Some 400)))
  else
    let len := Z.of_nat (String.length (asString name)) in
    if (len <=? 0) || (len >? TAG_NAME_LENGTH_LIMIT) then
      throw (Response (mkResponseError "Tag name must be 1 to 24 characters long." None (Some 400)))
    else mret tt.

(** ** The object used as a lookup table *)

(** The names every object literal inherits from [Object.prototype]. *)
Definition ObjectPrototype : list string :=
  [ "constructor"; "__proto__"; "hasOwnProperty"; "isPrototypeOf";
    "propertyIsEnumerable"; "toLocaleString"; "toString"; "valueOf";
    "__defineGetter__"; "__defineSetter__"; "__lookupGetter__";
    "__lookupSetter__" ].

(** What reading [obj[key]] gives on an object literal whose own properties
    hold values of [A]: the own property, else the member of
    [Object.prototype] of that name, else [undefined]. *)
Inductive Property (A : Type) : Type :=
  | Own (a : A)
  | Inherited (name : string)
  | Undefined.
Arguments Own {A} _.
Arguments Inherited {A} _.
Arguments Undefined {A}.

Definition getProperty {A : Type} (obj : gmap string A) (key : string) : Property A :=
  match obj !! key with
  | Some a => Own a
  | None => if bool_decide (key ∈ ObjectPrototype) then Inherited key else Undefined
  end.

(** [sortByRequestOrder(tagsResponse, tagIds)]: [reduce] fills [tagMap]
    from the empty object literal, [map] reads it once per requested ID. *)
Definition sortByRequestOrder (tagsResponse : list ITagDb) (tagIds : list string)
  : list (Property ITagDb) :=
  let tagMap :=
    foldl (fun (acc : gmap string ITagDb) tag => <[toString (tag_id tag) := tag]> acc)
          ∅ tagsResponse in
  (fun tagId => getProperty tagMap tagId) <$> tagIds.

(** ** Queries against the store *)

(** The value of a decimal digit, and of a string of digits read from the
    left. *)
Definition digitValue (c : Ascii.ascii) : N := (N.of_nat (Ascii.nat_of_ascii c) - 48)%N.

Definition isDigit (c : Ascii.ascii) : bool :=
  (48 <=? N.of_nat (Ascii.nat_of_ascii c))%N && (N.of_nat (Ascii.nat_of_ascii c) <=? 57)%N.

Fixpoint readDigits (acc : N) (s : string) : N :=
  match s with
  | EmptyString => acc
  | String c rest => readDigits (acc * 10 + digitValue c)%N rest
  end.

Fixpoint allDigits (s : string) : bool :=
  match s with
  | EmptyString => true
  | String c rest => isDigit c && allDigits rest
  end.

(** A decimal numeral: digits, at least one, after an optional minus
    sign; leading zeros are allowed. *)
Definition isNumeral (s : string) : bool :=
  match s with
  | EmptyString => false
  | String c rest =>
      if Ascii.eqb c "-" then allDigits rest && negb (String.eqb rest "") else allDigits s
  end.

Definition readInteger (s : string) : Z :=
  match s with
  | EmptyString => 0
  | String c rest =>
      if Ascii.eqb c "-" then - Z.of_N (readDigits 0 rest) else Z.of_N (readDigits 0 s)
  end.

(** The integer the store reads a bound text parameter as when the
    parameter meets an integer column: a numeral is read as its value, so
    "07" and "7" are both 7.  Text that is no numeral is read as no integer
    here; the engines differ on such text, and the properties below that
    depend on the reading are stated for numerals. *)
Definition columnOf (param : string) : option Z :=
  if isNumeral param then Some (readInteger param) else None.

(** How the store compares a bound text parameter with an integer column:
    by the integer the parameter is read as. *)
Definition bound (param : string) (column : Z) : bool :=
  bool_decide (columnOf param = Some column).

(** [checkRelated(workflowId, tagId)]: the select on [workflows_tags], and
    [result.length > 0]. *)
Definition checkRelated (workflowId tagId : string) : M bool :=
  result ← query (SelectWorkflowsTags workflowId tagId)
             (fun db => List.filter
                (fun row => bound workflowId (link_workflowId row) && bound tagId (link_tagId row))
                (workflows_tags db));
  mret (Z.of_nat (length result) >? 0).

(** [exists(id)]: [findOne] on the tag collection, and the throw when it
    finds nothing. *)
Definition exists_ (id : string) : M unit :=
  tag ← query (FindOneTag id)
          (fun db => List.find (fun t => bound id (tag_id t)) (tag_entity db));
  match tag with
  | None =>
      throw (Response (mkResponseError ("Tag with ID " +:+ id +:+ " does not exist.") None (Some 400)))
  | Some _ => mret tt
  end.

(** [validateRelations(workflowId, tagIds)]: the [for ... of] loop. *)
Fixpoint validateRelations (workflowId : string) (tagIds : list string) : M unit :=
  match tagIds with
  | [] => mret tt
  | tagId :: rest =>
      areRelated ← checkRelated workflowId tagId;
      if (areRelated : bool) then
        throw (Response (mkResponseError
          ("Workflow ID " +:+ workflowId +:+ " and tag ID " +:+ tagId +:+ " are already related.")
          None (Some 400)))
      else validateRelations workflowId rest
  end.

(** ** The aggregate query *)

(** [l LEFT JOIN r ON on]: every row of [l] with each row of [r] it
    matches, or once with NULL when it matches none. *)
Definition leftJoin {A B : Type} (on : A -> B -> bool) (l : list A) (r : list B)
  : list (A * option B) :=
  flat_map (fun a =>
    match List.filter (on a) r with
    | [] => [(a, None)]
    | matches => List.map (fun b => (a, Some b)) matches
    end) l.

(** [GROUP BY key]: one group per key value, holding the rows of that key. *)
Definition groupBy {A K : Type} `{EqDecision K} (key : A -> K) (rows : list A)
  : list (K * list A) :=
  List.map (fun k => (k, List.filter (fun row => bool_decide (key row = k)) rows))
           (remove_dups (List.map key rows)).

(** [COUNT(column)]: the rows whose column is not NULL. *)
Definition count {A B : Type} (column : A -> option B) (rows : list A) : Z :=
  Z.of_nat (length (List.filter (fun row => bool_decide (is_Some (column row))) rows)).

(** A row of the result of [getAllTagsWithUsageCount]. *)
Record TagUsage : Type := mkTagUsage {
  usage_id : Z;
  usage_name : string;
  usageCount : Z
}.

(** The rows the two left joins produce: a tag, its link or NULL, and the
    workflow of that link or NULL. *)
Definition JoinedRow : Type := (ITagDb * option WorkflowsTags) * option WorkflowEntity.

Definition tagsJoinWorkflows (db : Db) : list JoinedRow :=
  leftJoin
    (fun (row : ITagDb * option WorkflowsTags) (w : WorkflowEntity) =>
       match snd row with
       | Some link => bool_decide (link_workflowId link = workflow_id w)
       | None => false
       end)
    (leftJoin (fun (t : ITagDb) (link : WorkflowsTags) => bool_decide (link_tagId link = tag_id t))
              (tag_entity db) (workflows_tags db))
    (workflow_entity db).

(** [getAllTagsWithUsageCount()]: select [tag_entity.id], [tag_entity.name]
    and [COUNT(workflow_entity.id)] from the joined rows, grouped by
    [tag_entity.id]. *)
Definition getAllTagsWithUsageCount : M (list TagUsage) :=
  query SelectTagsWithUsageCount (fun db =>
    List.map
      (fun group : Z * list JoinedRow =>
         {| usage_id := fst group;
            usage_name := from_option (fun row : JoinedRow => tag_name (fst (fst row))) ""
                                      (List.head (snd group));
            usageCount := count (fun row : JoinedRow => workflow_id <$> snd row) (snd group) |})
      (groupBy (fun row : JoinedRow => tag_id (fst (fst row))) (tagsJoinWorkflows db))).

(** ** The helpers around the queries *)

(** [isStringArray(tags)]: [Array.isArray(tags)] and [every] item of type
    string. *)
Definition isStringArray (tags : JsValue) : bool :=
  match tags with
  | JsArray items => forallb (fun value => String.eqb (typeof value) "string") items
  | _ => false
  end.

(** [ITagResponseItem]: a tag as a response carries it. *)
Record ITagResponseItem : Type := mkItem {
  item_id : string;
  item_name : string
}.

(** [formatTagsResponse(tags)]: the ID stringified, the name kept, the
    timestamps left out. *)
Definition formatTagsResponse (tags : list ITagDb) : list ITagResponseItem :=
  (fun tag => {| item_id := toString (tag_id tag); item_name := tag_name tag |}) <$> tags.

(** ** Reading and writing the link table *)

(** The functions of this part send one statement each and throw nothing
    of their own; they are given as functions on the store, and a statement
    that the store refuses as a result of its own kind. *)

(** A row of [getWorkflowTags], as [getRawMany] returns it: the columns
    [tag_entity.id] and [tag_entity.name]. *)
Record RawTag : Type := mkRawTag {
  raw_id : Z;
  raw_name : string
}.

(** [getWorkflowTags(workflowId)]: the tags joined to their links, and of
    these rows the ones whose [workflowId] is the parameter; a row whose
    link is NULL does not pass the [WHERE]. *)
Definition getWorkflowTags (workflowId : string) (db : Db) : list RawTag :=
  List.map
    (fun row : ITagDb * option WorkflowsTags =>
       {| raw_id := tag_id (fst row); raw_name := tag_name (fst row) |})
    (List.filter
       (fun row : ITagDb * option WorkflowsTags =>
          match snd row with
          | Some link => bound workflowId (link_workflowId link)
          | None => false
          end)
       (leftJoin (fun (t : ITagDb) (link : WorkflowsTags) =>
                    bool_decide (link_tagId link = tag_id t))
                 (tag_entity db) (workflows_tags db))).

Definition with_workflows_tags (f : list WorkflowsTags -> list WorkflowsTags) (db : Db) : Db :=
  {| tag_entity := tag_entity db;
     workflows_tags := f (workflows_tags db);
     workflow_entity := workflow_entity db;
     shared_credentials := shared_credentials db;
     roles := roles db |}.

(** The [values] of [createRelations]: one row per tag ID, in the order of
    the IDs. *)
Definition relationValues (workflowId : string) (tagIds : list string)
  : option (list WorkflowsTags) :=
  mapM (fun tagId =>
          w ← columnOf workflowId; t ← columnOf tagId; Some (mkLink w t))
       tagIds.

(** What the store answers to a statement it refuses (the
    [QueryFailedError] of the query builder): the row that broke the key of
    the table, or that refers to a workflow or a tag that is not stored. *)
Inductive QueryFailedError : Type :=
  | UniqueViolation (row : WorkflowsTags)
  | ForeignKeyViolation (row : WorkflowsTags).

(** The workflow and the tag of a link are stored. *)
Definition refersToStored (db : Db) (row : WorkflowsTags) : bool :=
  existsb (fun w => bool_decide (workflow_id w = link_workflowId row)) (workflow_entity db)
  && existsb (fun t => bool_decide (tag_id t = link_tagId row)) (tag_entity db).

(** Modelled from the spec: the constraints of [workflows_tags] (the schema
    is not under [src/]).  Section 3: a (workflowId, tagId) pair appears at
    most once, and a link joins a workflow and a tag; section 4.2: a
    duplicate pair raises a store-level error.  The rows of one statement
    are taken in order, each checked against the rows before it. *)
Fixpoint insertLinks (db : Db) (rows links : list WorkflowsTags)
  : QueryFailedError + list WorkflowsTags :=
  match rows with
  | [] => inr links
  | row :: rest =>
      if bool_decide (row ∈ links) then inl (UniqueViolation row)
      else if refersToStored db row then insertLinks db rest (links ++ [row])
      else inl (ForeignKeyViolation row)
  end.

(** [createRelations(workflowId, tagIds)]: the rows go to the store in one
    statement, with no look of its own at the rows already there: either
    all of them are added, or the store refuses the statement and the
    promise rejects with the store's error, nothing added.  [None]: the
    call is outside this model, for a parameter that is no numeral or for
    an empty list of values. *)
Definition createRelations (workflowId : string) (tagIds : list string) (db : Db)
  : option (QueryFailedError + Db) :=
  match tagIds with
  | [] => None
  | _ =>
      rows ← relationValues workflowId tagIds;
      Some match insertLinks db rows (workflows_tags db) with
           | inl e => inl e
           | inr links => inr (with_workflows_tags (fun _ => links) db)
           end
  end.

(** [removeRelations(workflowId)]: the delete on [workflows_tags]. *)
Definition removeRelations (workflowId : string) (db : Db) : Db :=
  with_workflows_tags
    (List.filter (fun link => negb (bound workflowId (link_workflowId link)))) db.

(** * credentials.service.ee.ts *)

(** What [findOne] hands back for a sharing row: each relation is present
    only when the caller asked for it to be loaded. *)
Record Sharing : Type := mkLoaded {
  sharing_credentials : option CredentialsEntity;
  sharing_user : option User;
  sharing_role : option Role
}.

Definition load (relations : list string) (row : SharedCredentials) : Sharing :=
  {| sharing_credentials :=
       if bool_decide ("credentials" ∈ relations) then Some (credentials row) else None;
     sharing_user := if bool_decide ("user" ∈ relations) then Some (user row) else None;
     sharing_role := if bool_decide ("role" ∈ relations) then Some (role row) else None |}.

(** The [where] clause on a sharing row: the credential's key, and the
    user's key unless the clause leaves the user out. *)
Definition sharingOf (credentialId : string) (userId : option string)
    (row : SharedCredentials) : bool :=
  bool_decide (credentials_id (credentials row) = credentialId)
  && match userId with
     | Some u => bool_decide (user_id (user row) = u)
     | None => true
     end.

(** The instance-wide owner role that the override is granted to. *)
Definition globalOwner : Role := {| role_scope := "global"; role_name := "owner" |}.

(** Modelled from the spec: [CredentialsService.getSharing]
    ([credentials.service.ts] is not under [src/]).  Section 4.1: it looks
    up the sharing record of [user] against [credentialId]; the
    "global owner" override, when the caller allows it, lets the instance
    owner reach the record of any user; it reads and changes nothing. *)
Definition getSharing (user : User) (credentialId : string) (relations : list string)
    (allowGlobalOwner : bool) : M (option Sharing) :=
  let userId :=
    if allowGlobalOwner && bool_decide (globalRole user = globalOwner)
    then None else Some (user_id user) in
  query (FindOneSharedCredentials credentialId userId relations)
        (fun db => load relations <$>
                     List.find (sharingOf credentialId userId) (shared_credentials db)).

(** The result of [isOwned]: [{ ownsCredential, credential? }]. *)
Record Ownership : Type := mkOwnership {
  ownsCredential : bool;
  credential : option CredentialsEntity
}.

(** [EECredentialsService.isOwned(user, credentialId)]. *)
Definition isOwned (user : User) (credentialId : string) : M Ownership :=
  sharing ← getSharing user credentialId ["credentials"] false;
  match sharing with
  | None => mret {| ownsCredential := false; credential := None |}
  | Some sharing =>
      mret {| ownsCredential := true; credential := sharing_credentials sharing |}
  end.

(** Modelled from the spec: [RoleService.get] ([role.service.ts] is not
    under [src/]).  Sections 2 and 4.1: it resolves a role by scope and
    name, and fails when no such role exists. *)
Definition RoleService_get (scope name : string) : M Role :=
  found ← query (FindOneRole scope name)
            (fun db => List.find
               (fun r => bool_decide (role_scope r = scope) && bool_decide (role_name r = name))
               (roles db));
  match found with
  | Some r => mret r
  | None => throw (RoleLookupFailure scope name)
  end.

Definition with_shared_credentials (f : list SharedCredentials -> list SharedCredentials)
    (db : Db) : Db :=
  {| tag_entity := tag_entity db;
     workflows_tags := workflows_tags db;
     workflow_entity := workflow_entity db;
     shared_credentials := f (shared_credentials db);
     roles := roles db |}.

(** Modelled from the spec: the key of the [SharedCredentials] collection
    (the entity is not under [src/]).  Section 3: at most one row per
    (credential, user) pair; so [save] writes over the row of that pair when
    there is one, and adds a row otherwise. *)
Definition save (entity : SharedCredentials) (rows : list SharedCredentials)
  : list SharedCredentials :=
  let key := sharingOf (credentials_id (credentials entity)) (Some (user_id (user entity))) in
  if existsb key rows
  then List.map (fun row => if key row then entity else row) rows
  else rows ++ [entity].

(** [EECredentialsService.share(credential, sharee)]. *)
Definition share (credential : CredentialsEntity) (sharee : User) : M SharedCredentials :=
  role ← RoleService_get "credential" "editor";
  let entity := {| credentials := credential; user := sharee; role := role |} in
  execute (SaveSharedCredentials entity) (with_shared_credentials (save entity))
          (fun _ => entity).

(** [EECredentialsService.unshare(credentialId, shareeId)]: [delete] with
    both keys in the criteria. *)
Definition unshare (credentialId shareeId : string) : M unit :=
  execute (DeleteSharedCredentials credentialId shareeId)
          (with_shared_credentials
             (List.filter (fun row => negb (sharingOf credentialId (Some shareeId) row))))
          (fun _ => tt).

(** * Vocabulary of the properties *)

(** The three errors of [validateName], and those of [exists] and
    [validateRelations], with the status the source gives them. *)
Definition nameMissing : Exception :=
  Response (mkResponseError "Property 'name' missing from request body." None (Some 400)).
Definition nameNotAString : Exception :=
  Response (mkResponseError "Property 'name' must be a string." None (Some 400)).
Definition nameLength : Exception :=
  Response (mkResponseError "Tag name must be 1 to 24 characters long." None (Some 400)).
Definition tagNotFound (id : string) : Exception :=
  Response (mkResponseError ("Tag with ID " +:+ id +:+ " does not exist.") None (Some 400)).
Definition alreadyRelated (workflowId tagId : string) : Exception :=
  Response (mkResponseError
    ("Workflow ID " +:+ workflowId +:+ " and tag ID " +:+ tagId +:+ " are already related.")
    None (Some 400)).

(** A tag with the given ID is in [tag_entity]. *)
Definition tagPresent (db : Db) (id : string) : Prop :=
  exists t, t ∈ tag_entity db /\ columnOf id = Some (tag_id t).

(** The link table holds a row for the workflow and the tag. *)
Definition linked (db : Db) (workflowId tagId : string) : Prop :=
  exists row, row ∈ workflows_tags db
              /\ columnOf workflowId = Some (link_workflowId row)
              /\ columnOf tagId = Some (link_tagId row).

(** The workflows linked to a tag: the keys of the stored workflows that
    the link table pairs with the tag. *)
Definition linkedWorkflows (db : Db) (tag : Z) : gset Z :=
  list_to_set
    (workflow_id <$>
       filter (fun w => mkLink (workflow_id w) tag ∈ workflows_tags db) (workflow_entity db)).

(** The keys of the three tables: a tag and a workflow are identified by
    their ID, a link by its (workflow, tag) pair. *)
Record primaryKeys (db : Db) : Prop := mkKeys {
  tag_key : NoDup (tag_id <$> tag_entity db);
  workflow_key : NoDup (workflow_id <$> workflow_entity db);
  link_key : NoDup (workflows_tags db)
}.

(** The two credential roles: the one ownership is recorded with, and the
    one [share] grants. *)
Definition credentialOwner : Role := {| role_scope := "credential"; role_name := "owner" |}.
Definition credentialEditor : Role := {| role_scope := "credential"; role_name := "editor" |}.

(** [row] is a sharing record of the user for the credential of that ID. *)
Definition sharingRecord (db : Db) (userId credentialId : string)
    (row : SharedCredentials) : Prop :=
  row ∈ shared_credentials db
  /\ credentials_id (credentials row) = credentialId
  /\ user_id (user row) = userId.

(** The user holds some sharing record for the credential. *)
Definition hasSharing (db : Db) (u : User) (c : CredentialsEntity) : Prop :=
  exists row, sharingRecord db (user_id u) (credentials_id c) row.

(** The user owns the credential: the store holds the user's record for it
    with the owner role. *)
Definition owns (db : Db) (o : User) (c : CredentialsEntity) : Prop :=
  exists row, sharingRecord db (user_id o) (credentials_id c) row
              /\ credentials row = c /\ role row = credentialOwner.

(** A credential is identified by its ID: the records of one ID carry one
    credential. *)
Definition credentialsKey (db : Db) : Prop :=
  forall row1 row2, row1 ∈ shared_credentials db -> row2 ∈ shared_credentials db ->
    credentials_id (credentials row1) = credentials_id (credentials row2) ->
    credentials row1 = credentials row2.

(** ** The joined rows, tag by tag *)

(** The rows of the first join for one tag. *)
Definition withLinks (db : Db) (t : ITagDb) : list (ITagDb * option WorkflowsTags) :=
  match List.filter (fun link => bool_decide (link_tagId link = tag_id t)) (workflows_tags db) with
  | [] => [(t, None)]
  | matches => List.map (fun link => (t, Some link)) matches
  end.

(** The [ON] condition of the second join. *)
Definition onWorkflow (row : ITagDb * option WorkflowsTags) (w : WorkflowEntity) : bool :=
  match snd row with
  | Some link => bool_decide (link_workflowId link = workflow_id w)
  | None => false
  end.

(** The rows of the second join for one row of the first. *)
Definition withWorkflows (db : Db) (row : ITagDb * option WorkflowsTags) : list JoinedRow :=
  match List.filter (onWorkflow row) (workflow_entity db) with
  | [] => [(row, None)]
  | matches => List.map (fun w => (row, Some w)) matches
  end.

(** The joined rows of one tag. *)
Definition tagRows (db : Db) (t : ITagDb) : list JoinedRow :=
  flat_map (withWorkflows db) (withLinks db t).

(** [COUNT(workflow_entity.id)] over joined rows. *)
Definition countWorkflows (rows : list JoinedRow) : Z :=
  count (fun row : JoinedRow => workflow_id <$> snd row) rows.

(** ** The link table, row by row *)

(** The row [getWorkflowTags] returns for a tag. *)
Definition rawTag (t : ITagDb) : RawTag :=
  {| raw_id := tag_id t; raw_name := tag_name t |}.

(** The select of [checkRelated], as a test on the table. *)
Definition related (db : Db) (workflowId tagId : string) : bool :=
  existsb (fun row => bound workflowId (link_workflowId row) && bound tagId (link_tagId row))
          (workflows_tags db).

(** The links of one tag that belong to the workflow of the parameter. *)
Definition linksOf (workflowId : string) (db : Db) (t : ITagDb) : list WorkflowsTags :=
  List.filter (fun link => bound workflowId (link_workflowId link))
    (List.filter (fun link => bool_decide (link_tagId link = tag_id t)) (workflows_tags db)).

(** What [values] holds for one tag ID. *)
Definition valueOf (workflowId tagId : string) (row : WorkflowsTags) : Prop :=
  columnOf workflowId = Some (link_workflowId row) /\ columnOf tagId = Some (link_tagId row).

(** A workflow with the given ID is in [workflow_entity]. *)
Definition workflowPresent (db : Db) (id : string) : Prop :=
  exists w, w ∈ workflow_entity db /\ columnOf id = Some (workflow_id w).

(** The store with rows added to the link table. *)
Definition withLinksAdded (rows : list WorkflowsTags) (db : Db) : Db :=
  with_workflows_tags (fun _ => workflows_tags db ++ rows) db.

#[global] Instance RawTag_eq_dec : EqDecision RawTag.
Proof. solve_decision. Defined.

(** * Properties of the monad *)

Lemma run_bind {A B : Type} (m : M A) (f : A -> M B) (db : Db) :
  (m ≫= f) db =
  match outcome (m db) with
  | inl e => mkRun (inl e) (store (m db)) (issued (m db))
  | inr a => mkRun (outcome (f a (store (m db)))) (store (f a (store (m db))))
                   (issued (m db) ++ issued (f a (store (m db))))
  end.
Proof. reflexivity. Qed.

Lemma run_query_bind {A B : Type} (q : Statement) (answer : Db -> A) (f : A -> M B) (db : Db) :
  (query q answer ≫= f) db =
  mkRun (outcome (f (answer db) db)) (store (f (answer db) db))
        (q :: issued (f (answer db) db)).
Proof. reflexivity. Qed.

Lemma bound_true (param : string) (column : Z) :
  bound param column = true <-> columnOf param = Some column.
Proof. unfold bound. apply bool_decide_eq_true. Qed.

(** * Properties of [validateName] *)

Section ValidateName.

Variable db : Db.

Lemma validateName_undefined :
  validateName JsUndefined db = mkRun (inl nameMissing) db [].
Proof. reflexivity. Qed.

Lemma validateName_not_string (name : JsValue) :
  name <> JsUndefined -> typeof name <> "string" ->
  validateName name db = mkRun (inl nameNotAString) db [].
Proof.
  intros Hdef Hty.
  destruct name; simpl in *; try reflexivity; congruence.
Qed.

Lemma validateName_string (s : string) :
  validateName (JsString s) db =
  if bool_decide (1 <= String.length s <= 24)%nat
  then mkRun (inr tt) db []
  else mkRun (inl nameLength) db [].
Proof.
  unfold validateName, TAG_NAME_LENGTH_LIMIT. simpl.
  case_bool_decide as Hlen.
  - replace (Z.of_nat (String.length s) <=? 0) with false by (symmetry; apply Z.leb_gt; lia).
    replace (Z.of_nat (String.length s) >? 24) with false
      by (symmetry; rewrite Z.gtb_ltb; apply Z.ltb_ge; lia).
    reflexivity.
  - destruct (Z.leb_spec (Z.of_nat (String.length s)) 0) as [Hle | Hgt]; [reflexivity |].
    replace (Z.of_nat (String.length s) >? 24) with true
      by (symmetry; rewrite Z.gtb_ltb; apply Z.ltb_lt; lia).
    reflexivity.
Qed.

End ValidateName.

(** C3: [validateName] runs its checks in order and stops at the first
    that fails. An absent name raises the "missing" error with status 400;
    any other value that is not a string raises the "must be a string"
    error; a string of length 0 or above 24 raises the length error; a
    string of 1 to 24 characters, 24 included, is accepted. In every case
    the store is left as it was and no statement is sent. *)
Theorem validateName_state_machine (name : JsValue) (db : Db) :
  (name = JsUndefined -> validateName name db = mkRun (inl nameMissing) db [])
  /\ (name <> JsUndefined -> typeof name <> "string" ->
      validateName name db = mkRun (inl nameNotAString) db [])
  /\ (forall s, name = JsString s ->
        (String.length s = 0 \/ 24 < String.length s)%nat ->
        validateName name db = mkRun (inl nameLength) db [])
  /\ (forall s, name = JsString s ->
        (1 <= String.length s <= 24)%nat ->
        validateName name db = mkRun (inr tt) db []).
Proof.
  repeat split.
  - intros ->. apply validateName_undefined.
  - apply validateName_not_string.
  - intros s -> Hlen. rewrite validateName_string.
    rewrite bool_decide_eq_false_2; [reflexivity | lia].
  - intros s -> Hlen. rewrite validateName_string.
    rewrite bool_decide_eq_true_2; [reflexivity | lia].
Qed.

(** The inputs of the spec's test: the empty string, 25 characters,
    [undefined], 24 characters, and a number. *)
Lemma validateName_state_machine_witness :
  let db := mkDb [] [] [] [] [] in
  outcome (validateName (JsString "") db) = inl nameLength
  /\ outcome (validateName (JsString "abcdefghijklmnopqrstuvwxy") db) = inl nameLength
  /\ outcome (validateName JsUndefined db) = inl nameMissing
  /\ outcome (validateName (JsString "abcdefghijklmnopqrstuvwx") db) = inr tt
  /\ outcome (validateName (JsNumber 7) db) = inl nameNotAString.
Proof.
  intros db.
  destruct (validateName_state_machine (JsString "") db) as (_ & _ & E1 & _).
  destruct (validateName_state_machine (JsString "abcdefghijklmnopqrstuvwxy") db) as (_ & _ & E2 & _).
  destruct (validateName_state_machine JsUndefined db) as (E3 & _).
  destruct (validateName_state_machine (JsString "abcdefghijklmnopqrstuvwx") db) as (_ & _ & _ & E4).
  destruct (validateName_state_machine (JsNumber 7) db) as (_ & E5 & _).
  rewrite (E1 "" eq_refl), (E2 "abcdefghijklmnopqrstuvwxy" eq_refl), (E3 eq_refl),
    (E4 "abcdefghijklmnopqrstuvwx" eq_refl), E5; simpl.
  - repeat split; reflexivity.
  - discriminate.
  - discriminate.
  - lia.
  - lia.
  - lia.
Defined.

(** C10: the result of [validateName] is a function of the name alone. Two
    stores give the same outcome, no statement is sent to either, and
    neither changes; so a name of 1 to 24 characters is accepted also when
    a tag of that very name is already stored. *)
Theorem validateName_ignores_store (name : JsValue) (db1 db2 : Db) :
  outcome (validateName name db1) = outcome (validateName name db2)
  /\ issued (validateName name db1) = []
  /\ store (validateName name db1) = db1
  /\ (forall s t, name = JsString s -> (1 <= String.length s <= 24)%nat ->
        t ∈ tag_entity db1 -> tag_name t = s ->
        outcome (validateName name db1) = inr tt).
Proof.
  assert (Hshape : forall db, exists o, validateName name db = mkRun o db []
                                   /\ o = outcome (validateName name (mkDb [] [] [] [] []))).
  { intros db. destruct name; try (eexists; split; reflexivity).
    rewrite !validateName_string. case_bool_decide; eexists; split; reflexivity. }
  destruct (Hshape db1) as (o1 & E1 & Ho1), (Hshape db2) as (o2 & E2 & Ho2).
  rewrite E1, E2. simpl. repeat split.
  - congruence.
  - intros s t -> Hlen _ _. rewrite validateName_string in E1.
    rewrite bool_decide_eq_true_2 in E1 by lia. congruence.
Qed.

Lemma validateName_ignores_store_witness :
  let taken := mkTag 1 "billing" 0 0 in
  outcome (validateName (JsString "billing") (mkDb [taken] [] [] [] [])) = inr tt
  /\ outcome (validateName (JsString "billing") (mkDb [] [] [] [] [])) = inr tt.
Proof.
  intros taken.
  destruct (validateName_ignores_store (JsString "billing")
              (mkDb [taken] [] [] [] []) (mkDb [] [] [] [] [])) as (Hsame & _ & _ & Hok).
  assert (H1 : outcome (validateName (JsString "billing") (mkDb [taken] [] [] [] [])) = inr tt).
  { apply (Hok "billing" taken); [reflexivity | simpl; lia | | reflexivity].
    apply list_elem_of_singleton. reflexivity. }
  split; [exact H1 | rewrite <- Hsame; exact H1].
Defined.

(** * Properties of [exists] *)

Section Exists.

Variables (id : string) (db : Db).

Lemma findOne_tag_None :
  List.find (fun t => bound id (tag_id t)) (tag_entity db) = None <-> ~ tagPresent db id.
Proof.
  split.
  - intros Hnone (t & Hin & Hid).
    apply list_elem_of_In in Hin.
    pose proof (find_none _ _ Hnone t Hin) as Hb. simpl in Hb.
    apply bound_true in Hid. congruence.
  - intros Habsent.
    destruct (List.find _ _) as [t |] eqn:Hfind; [| reflexivity].
    apply find_some in Hfind as [Hin Hb].
    exfalso. apply Habsent. exists t. split.
    + apply list_elem_of_In. exact Hin.
    + apply bound_true. exact Hb.
Qed.

Lemma exists_run :
  exists_ id db =
  mkRun (match List.find (fun t => bound id (tag_id t)) (tag_entity db) with
         | None => inl (tagNotFound id)
         | Some _ => inr tt
         end) db [FindOneTag id].
Proof.
  unfold exists_. rewrite run_query_bind.
  destruct (List.find _ _); reflexivity.
Qed.

End Exists.

(** C7: for an ID that is a numeral, [exists(id)] throws the error
    "Tag with ID {id} does not exist." with status 400 exactly when no tag
    is stored under the integer the store reads the ID as, and returns
    normally exactly when one is; in both cases the store is unchanged and
    the only statement sent is the lookup. *)
Theorem exists_gate (id : string) (db : Db) :
  isNumeral id = true ->
  (outcome (exists_ id db) = inl (tagNotFound id) <-> ~ tagPresent db id)
  /\ (outcome (exists_ id db) = inr tt <-> tagPresent db id)
  /\ store (exists_ id db) = db
  /\ issued (exists_ id db) = [FindOneTag id].
Proof.
  intros _. rewrite exists_run. simpl.
  pose proof (findOne_tag_None id db) as Hnone.
  destruct (List.find _ _) as [t |] eqn:Hfind.
  - assert (Hpresent : tagPresent db id).
    { apply find_some in Hfind as [Hin Hb]. exists t. split.
      - apply list_elem_of_In. exact Hin.
      - apply bound_true. exact Hb. }
    repeat split; try done.
  - assert (Habsent : ~ tagPresent db id) by (apply Hnone; reflexivity).
    repeat split; try done.
Qed.

(** Tag 1 is stored and passes the gate, asked for as "1" or as "01";
    tag 3 is not stored and is refused. *)
Lemma exists_gate_witness :
  let db := mkDb [mkTag 1 "ops" 0 0] [] [] [] [] in
  outcome (exists_ "1" db) = inr tt
  /\ outcome (exists_ "01" db) = inr tt
  /\ outcome (exists_ "3" db) = inl (tagNotFound "3").
Proof.
  intros db. split; [| split].
  - apply (exists_gate "1" db eq_refl).
    exists (mkTag 1 "ops" 0 0). split; [left | reflexivity].
  - apply (exists_gate "01" db eq_refl).
    exists (mkTag 1 "ops" 0 0). split; [left | reflexivity].
  - apply (exists_gate "3" db eq_refl).
    intros (t & Hin & Hid). apply list_elem_of_singleton in Hin. subst t. discriminate.
Defined.

(** * Properties of [checkRelated] and [validateRelations] *)

Section ValidateRelations.

Variables (workflowId : string) (db : Db).

(** The rows the select of [checkRelated] returns. *)
Let selected (tagId : string) : list WorkflowsTags :=
  List.filter
    (fun row => bound workflowId (link_workflowId row) && bound tagId (link_tagId row))
    (workflows_tags db).

Lemma checkRelated_run (tagId : string) :
  checkRelated workflowId tagId db =
  mkRun (inr (Z.of_nat (length (selected tagId)) >? 0)) db
        [SelectWorkflowsTags workflowId tagId].
Proof. reflexivity. Qed.

Lemma selected_linked (tagId : string) :
  (Z.of_nat (length (selected tagId)) >? 0) = true <-> linked db workflowId tagId.
Proof.
  rewrite Z.gtb_ltb, Z.ltb_lt. split.
  - intros Hlen. destruct (selected tagId) as [| row rows] eqn:Hsel; [simpl in Hlen; lia |].
    assert (Hin : In row (selected tagId)) by (rewrite Hsel; left; reflexivity).
    apply filter_In in Hin as [Hin Hb].
    apply andb_true_iff in Hb as [Hw Ht].
    exists row. repeat split.
    + apply list_elem_of_In. exact Hin.
    + apply bound_true. exact Hw.
    + apply bound_true. exact Ht.
  - intros (row & Hin & Hw & Ht).
    assert (Hsel : In row (selected tagId)).
    { apply filter_In. split.
      - apply list_elem_of_In. exact Hin.
      - apply andb_true_iff. split; apply bound_true; assumption. }
    destruct (selected tagId); [destruct Hsel | simpl; lia].
Qed.

Lemma validateRelations_cons (tagId : string) (rest : list string) :
  validateRelations workflowId (tagId :: rest) db =
  if Z.of_nat (length (selected tagId)) >? 0
  then mkRun (inl (alreadyRelated workflowId tagId)) db
             [SelectWorkflowsTags workflowId tagId]
  else mkRun (outcome (validateRelations workflowId rest db))
             (store (validateRelations workflowId rest db))
             (SelectWorkflowsTags workflowId tagId
                :: issued (validateRelations workflowId rest db)).
Proof.
  change (validateRelations workflowId (tagId :: rest))
    with (checkRelated workflowId tagId ≫= fun areRelated : bool =>
            if areRelated
            then throw (alreadyRelated workflowId tagId)
            else validateRelations workflowId rest).
  rewrite run_bind, checkRelated_run. simpl.
  destruct (_ >? 0); reflexivity.
Qed.

(** No tag of the sequence is linked: every tag is checked, in order. *)
Lemma validateRelations_pass (tagIds : list string) :
  (forall u, u ∈ tagIds -> ~ linked db workflowId u) ->
  validateRelations workflowId tagIds db =
  mkRun (inr tt) db (SelectWorkflowsTags workflowId <$> tagIds).
Proof.
  induction tagIds as [| tagId rest IH]; intros Hfree; [reflexivity |].
  rewrite validateRelations_cons.
  destruct (_ >? 0) eqn:Hrel.
  - exfalso. apply (Hfree tagId); [left | apply selected_linked; exact Hrel].
  - rewrite IH; [reflexivity |].
    intros u Hu. apply Hfree. right. exact Hu.
Qed.

(** The first linked tag stops the loop. *)
Lemma validateRelations_stop (checked : list string) (tagId : string) (rest : list string) :
  (forall u, u ∈ checked -> ~ linked db workflowId u) ->
  linked db workflowId tagId ->
  validateRelations workflowId (checked ++ tagId :: rest) db =
  mkRun (inl (alreadyRelated workflowId tagId)) db
        (SelectWorkflowsTags workflowId <$> (checked ++ [tagId])).
Proof.
  induction checked as [| c checked IH]; intros Hfree Hlinked.
  - simpl app. rewrite validateRelations_cons.
    apply selected_linked in Hlinked. rewrite Hlinked. reflexivity.
  - change ((c :: checked) ++ tagId :: rest) with (c :: (checked ++ tagId :: rest)).
    rewrite validateRelations_cons.
    destruct (_ >? 0) eqn:Hrel.
    + exfalso. apply (Hfree c); [left | apply selected_linked; exact Hrel].
    + rewrite IH; [reflexivity | | exact Hlinked].
      intros u Hu. apply Hfree. right. exact Hu.
Qed.

(** A sequence either holds no linked tag, or splits at its first one. *)
Lemma first_linked (tagIds : list string) :
  (forall u, u ∈ tagIds -> ~ linked db workflowId u)
  \/ exists checked tagId rest,
       tagIds = checked ++ tagId :: rest
       /\ (forall u, u ∈ checked -> ~ linked db workflowId u)
       /\ linked db workflowId tagId.
Proof.
  induction tagIds as [| t rest IH].
  - left. intros u Hu. inversion Hu.
  - destruct (Z.of_nat (length (selected t)) >? 0) eqn:Ht.
    + right. exists [], t, rest. repeat split.
      * intros u Hu. inversion Hu.
      * apply selected_linked. exact Ht.
    + assert (Hfree : ~ linked db workflowId t).
      { intros H. apply selected_linked in H. congruence. }
      destruct IH as [IH | (checked & tagId & rest' & -> & Hchecked & Hlinked)].
      * left. intros u Hu. apply elem_of_cons in Hu as [-> | Hu]; auto.
      * right. exists (t :: checked), tagId, rest'. repeat split; [| exact Hlinked].
        intros u Hu. apply elem_of_cons in Hu as [-> | Hu]; auto.
Qed.

End ValidateRelations.

(** C4: for IDs that are numerals, [validateRelations(W, tagIds)] checks
    the IDs in the order of the sequence. At the first tag already linked
    to W (as the store reads the two IDs) it throws the conflict error
    (status 400) that names W and that tag, having sent the membership
    query for the IDs up to and including that tag and for none after it.
    It returns normally exactly when no ID of the sequence is linked to W,
    and then it has checked them all. The store is never changed. *)
Theorem validateRelations_fail_fast (workflowId : string) (tagIds : list string) (db : Db) :
  isNumeral workflowId = true ->
  (forall tagId, tagId ∈ tagIds -> isNumeral tagId = true) ->
  (forall checked tagId rest,
      tagIds = checked ++ tagId :: rest ->
      (forall u, u ∈ checked -> ~ linked db workflowId u) ->
      linked db workflowId tagId ->
      validateRelations workflowId tagIds db =
      mkRun (inl (alreadyRelated workflowId tagId)) db
            (SelectWorkflowsTags workflowId <$> (checked ++ [tagId])))
  /\ (outcome (validateRelations workflowId tagIds db) = inr tt
      <-> forall u, u ∈ tagIds -> ~ linked db workflowId u)
  /\ ((forall u, u ∈ tagIds -> ~ linked db workflowId u) ->
      validateRelations workflowId tagIds db =
      mkRun (inr tt) db (SelectWorkflowsTags workflowId <$> tagIds))
  /\ store (validateRelations workflowId tagIds db) = db.
Proof.
  intros _ _. repeat split.
  - intros checked tagId rest -> Hfree Hlinked.
    apply validateRelations_stop; assumption.
  - intros Hok.
    destruct (first_linked workflowId db tagIds)
      as [Hfree | (checked & tagId & rest & -> & Hfree & Hlinked)]; [exact Hfree |].
    rewrite validateRelations_stop in Hok by assumption. discriminate.
  - intros Hfree. rewrite validateRelations_pass by assumption. reflexivity.
  - apply validateRelations_pass.
  - destruct (first_linked workflowId db tagIds)
      as [Hfree | (checked & tagId & rest & -> & Hfree & Hlinked)].
    + rewrite validateRelations_pass by assumption. reflexivity.
    + rewrite validateRelations_stop by assumption. reflexivity.
Qed.

(** The spec's test: T1 is linked to W, and T2 is never asked about; the
    same holds when T1 is asked for as "01". *)
Lemma validateRelations_fail_fast_witness :
  let db := mkDb [mkTag 1 "ops" 0 0; mkTag 2 "idle" 0 0] [mkLink 7 1; mkLink 7 2]
                 [mkWorkflow 7 "sync"] [] [] in
  validateRelations "7" ["1"; "2"] db =
    mkRun (inl (alreadyRelated "7" "1")) db [SelectWorkflowsTags "7" "1"]
  /\ validateRelations "7" ["01"; "2"] db =
    mkRun (inl (alreadyRelated "7" "01")) db [SelectWorkflowsTags "7" "01"].
Proof.
  intros db. split.
  - destruct (validateRelations_fail_fast "7" ["1"; "2"] db eq_refl) as (Hstop & _).
    + intros tagId Hin. apply elem_of_cons in Hin as [-> | Hin]; [reflexivity |].
      apply list_elem_of_singleton in Hin. subst tagId. reflexivity.
    + apply (Hstop [] "1" ["2"]).
      * reflexivity.
      * intros u Hu. inversion Hu.
      * exists (mkLink 7 1). repeat split. left.
  - destruct (validateRelations_fail_fast "7" ["01"; "2"] db eq_refl) as (Hstop & _).
    + intros tagId Hin. apply elem_of_cons in Hin as [-> | Hin]; [reflexivity |].
      apply list_elem_of_singleton in Hin. subst tagId. reflexivity.
    + apply (Hstop [] "01" ["2"]).
      * reflexivity.
      * intros u Hu. inversion Hu.
      * exists (mkLink 7 1). repeat split. left.
Defined.

(** * Properties of [sortByRequestOrder] *)

Section SortByRequestOrder.

(** The step of the [reduce]. *)
Let put (acc : gmap string ITagDb) (tag : ITagDb) : gmap string ITagDb :=
  <[toString (tag_id tag) := tag]> acc.

(** Tags of other IDs leave the entry of a key alone. *)
Lemma tagMap_untouched (tags : list ITagDb) (acc : gmap string ITagDb) (key : string) :
  (forall u, u ∈ tags -> toString (tag_id u) <> key) ->
  foldl put acc tags !! key = acc !! key.
Proof.
  revert acc. induction tags as [| t tags IH]; intros acc Hother; [reflexivity |].
  simpl. rewrite IH.
  - unfold put. apply lookup_insert_ne. apply Hother. left.
  - intros u Hu. apply Hother. right. exact Hu.
Qed.

(** The entry of a key is the last tag of that ID. *)
Lemma tagMap_last (before after : list ITagDb) (t : ITagDb) (acc : gmap string ITagDb) :
  (forall u, u ∈ after -> toString (tag_id u) <> toString (tag_id t)) ->
  foldl put acc (before ++ t :: after) !! toString (tag_id t) = Some t.
Proof.
  intros Hafter. rewrite foldl_app. simpl.
  rewrite tagMap_untouched by exact Hafter.
  unfold put. apply lookup_insert_eq.
Qed.

Lemma sortByRequestOrder_length (tagsResponse : list ITagDb) (tagIds : list string) :
  length (sortByRequestOrder tagsResponse tagIds) = length tagIds.
Proof. unfold sortByRequestOrder. apply length_fmap. Qed.

Lemma sortByRequestOrder_lookup (tagsResponse : list ITagDb) (tagIds : list string)
    (i : nat) (key : string) :
  tagIds !! i = Some key ->
  sortByRequestOrder tagsResponse tagIds !! i =
  Some (getProperty (foldl put ∅ tagsResponse) key).
Proof.
  intros Hi. unfold sortByRequestOrder.
  rewrite list_lookup_fmap, Hi. reflexivity.
Qed.

(** A requested ID that is the ID of a stored tag gets a tag of that ID. *)
Lemma sortByRequestOrder_present (tagsResponse : list ITagDb) (tagIds : list string)
    (i : nat) (t : ITagDb) :
  t ∈ tagsResponse -> tagIds !! i = Some (toString (tag_id t)) ->
  exists u, u ∈ tagsResponse /\ tag_id u = tag_id t
            /\ sortByRequestOrder tagsResponse tagIds !! i = Some (Own u).
Proof.
  intros Hin Hi. rewrite (sortByRequestOrder_lookup _ _ _ _ Hi).
  induction tagsResponse as [| x tags IH] using rev_ind; [inversion Hin |].
  destruct (decide (tag_id x = tag_id t)) as [Heq | Hne].
  - exists x. repeat split; [apply elem_of_app; right; left | exact Heq |].
    unfold getProperty. rewrite <- Heq.
    rewrite (tagMap_last tags [] x); [reflexivity |]. intros u Hu. inversion Hu.
  - apply elem_of_app in Hin as [Hin | Hin];
      [| apply list_elem_of_singleton in Hin; congruence].
    destruct (IH Hin) as (u & Hu & Hid & Hslot).
    exists u. repeat split; [apply elem_of_app; left; exact Hu | exact Hid |].
    rewrite <- Hslot. f_equal. unfold getProperty.
    rewrite foldl_app. simpl. unfold put at 1.
    rewrite lookup_insert_ne; [reflexivity |].
    intros Heq. apply Hne. unfold toString in Heq. apply (inj pretty) in Heq. exact Heq.
Qed.

(** A requested ID that no stored tag has is read from the empty object:
    [undefined], unless the object inherits a member of that name. *)
Lemma sortByRequestOrder_absent (tagsResponse : list ITagDb) (tagIds : list string)
    (i : nat) (key : string) :
  tagIds !! i = Some key ->
  (forall u, u ∈ tagsResponse -> toString (tag_id u) <> key) ->
  sortByRequestOrder tagsResponse tagIds !! i =
  Some (if bool_decide (key ∈ ObjectPrototype) then Inherited key else Undefined).
Proof.
  intros Hi Habsent. rewrite (sortByRequestOrder_lookup _ _ _ _ Hi).
  unfold getProperty. rewrite tagMap_untouched by exact Habsent.
  rewrite lookup_empty. reflexivity.
Qed.

(** The slot of an inherited name is never [undefined]. *)
Lemma sortByRequestOrder_inherited (tagsResponse : list ITagDb) (tagIds : list string)
    (i : nat) (key : string) :
  tagIds !! i = Some key -> key ∈ ObjectPrototype ->
  sortByRequestOrder tagsResponse tagIds !! i <> Some Undefined.
Proof.
  intros Hi Hproto. rewrite (sortByRequestOrder_lookup _ _ _ _ Hi).
  unfold getProperty. destruct (_ !! key); [discriminate |].
  rewrite bool_decide_eq_true_2 by exact Hproto. discriminate.
Qed.

End SortByRequestOrder.

(** C5, at the input where the source departs from it: no tag is stored
    and the requested ID is "constructor". The lookup object is the empty
    literal, which inherits [constructor] from [Object.prototype], so the
    one slot of the result holds that inherited member and is not
    [undefined]. *)
Theorem sortByRequestOrder_constructor :
  sortByRequestOrder [] ["constructor"] = [Inherited "constructor"]
  /\ sortByRequestOrder [] ["constructor"] <> [Undefined].
Proof. split; [reflexivity | discriminate]. Qed.

(** The slots of [sortByRequestOrder] in general: the result has one slot
    per requested ID, in the order of the request; the slot of an ID that a
    tag of [tagsResponse] has holds a tag of that ID; the slot of an ID
    that no tag has, and that is not a name inherited from
    [Object.prototype], is [undefined] and stays in place. *)
Theorem sortByRequestOrder_slots (tagsResponse : list ITagDb) (tagIds : list string) :
  length (sortByRequestOrder tagsResponse tagIds) = length tagIds
  /\ (forall i t, t ∈ tagsResponse -> tagIds !! i = Some (toString (tag_id t)) ->
       exists u, u ∈ tagsResponse /\ tag_id u = tag_id t
                 /\ sortByRequestOrder tagsResponse tagIds !! i = Some (Own u))
  /\ (forall i key, tagIds !! i = Some key ->
       (forall u, u ∈ tagsResponse -> toString (tag_id u) <> key) ->
       key ∉ ObjectPrototype ->
       sortByRequestOrder tagsResponse tagIds !! i = Some Undefined).
Proof.
  split; [apply sortByRequestOrder_length | split].
  - intros i t Hin Hi. apply sortByRequestOrder_present; assumption.
  - intros i key Hi Habsent Hown.
    rewrite (sortByRequestOrder_absent _ _ _ _ Hi Habsent).
    rewrite bool_decide_eq_false_2 by exact Hown. reflexivity.
Qed.

(** The spec's test, with a third ID that no tag has: the tags come back
    in the order 1, 2, and the third slot is [undefined]. *)
Lemma sortByRequestOrder_slots_witness :
  let two := mkTag 2 "beta" 0 0 in
  let one := mkTag 1 "alpha" 0 0 in
  sortByRequestOrder [two; one] ["1"; "2"; "7"] = [Own one; Own two; Undefined]
  /\ sortByRequestOrder [two; one] ["1"; "2"; "7"] !! 2%nat = Some Undefined.
Proof.
  intros two one. split; [reflexivity |].
  destruct (sortByRequestOrder_slots [two; one] ["1"; "2"; "7"]) as (_ & _ & Habsent).
  apply (Habsent 2%nat "7").
  - reflexivity.
  - intros u Hu. apply elem_of_cons in Hu as [-> | Hu]; [discriminate |].
    apply list_elem_of_singleton in Hu. subst u. discriminate.
  - vm_compute. intros Hin. repeat (apply elem_of_cons in Hin as [Heq | Hin]; [discriminate |]).
    inversion Hin.
Defined.

(** C9: when several tags of [tagsResponse] have the same stringified ID,
    the slot of that ID holds the last of them: a tag that no later tag
    shares its ID with is the one every request for its ID gets. *)
Theorem sortByRequestOrder_last_wins (before after : list ITagDb) (t : ITagDb)
    (tagIds : list string) (i : nat) :
  tagIds !! i = Some (toString (tag_id t)) ->
  (forall u, u ∈ after -> toString (tag_id u) <> toString (tag_id t)) ->
  sortByRequestOrder (before ++ t :: after) tagIds !! i = Some (Own t).
Proof.
  intros Hi Hafter.
  rewrite (sortByRequestOrder_lookup _ _ _ _ Hi).
  unfold getProperty. rewrite tagMap_last by exact Hafter. reflexivity.
Qed.

(** Two tags of ID 1, then one of ID 2: the request for "1" gets the
    second of the two. *)
Lemma sortByRequestOrder_last_wins_witness :
  let old := mkTag 1 "draft" 10 10 in
  let new := mkTag 1 "final" 20 20 in
  let other := mkTag 2 "misc" 30 30 in
  sortByRequestOrder [old; new; other] ["2"; "1"] !! 1%nat = Some (Own new).
Proof.
  intros old new other.
  apply (sortByRequestOrder_last_wins [old] [other] new ["2"; "1"] 1%nat).
  - reflexivity.
  - intros u Hu. apply list_elem_of_singleton in Hu. subst u. discriminate.
Defined.

(** * Properties of the relational operators *)

Section Relational.

Context {A B K : Type} `{EqDecision K}.

(** A run of one key in front of keys other than it is one group. *)
Lemma remove_dups_run (k : K) (run rest : list K) :
  run <> [] -> (forall x, x ∈ run -> x = k) -> k ∉ rest ->
  remove_dups (run ++ rest) = k :: remove_dups rest.
Proof.
  intros Hne Hrun Hrest.
  induction run as [| x run IH]; [congruence |].
  assert (x = k) as -> by (apply Hrun; left).
  destruct run as [| y run].
  - simpl. destruct (decide_rel _ k rest) as [Hin | _]; [contradiction | reflexivity].
  - assert (y = k) as -> by (apply Hrun; right; left).
    change ((k :: k :: run) ++ rest) with (k :: ((k :: run) ++ rest)).
    cbn [remove_dups].
    destruct (decide_rel _ k ((k :: run) ++ rest)) as [_ | Hout].
    + apply IH; [discriminate |].
      intros z Hz. apply Hrun. right. exact Hz.
    + exfalso. apply Hout. left.
Qed.

Lemma filter_all (p : A -> bool) (l : list A) :
  (forall x, x ∈ l -> p x = true) -> List.filter p l = l.
Proof.
  intros Hall. apply forallb_filter_id. apply forallb_forall.
  intros x Hx. apply Hall. apply list_elem_of_In. exact Hx.
Qed.

Lemma filter_none (p : A -> bool) (l : list A) :
  (forall x, x ∈ l -> p x = false) -> List.filter p l = [].
Proof.
  induction l as [| x l IH]; intros Hnone; [reflexivity |].
  simpl. rewrite Hnone by left. apply IH.
  intros y Hy. apply Hnone. right. exact Hy.
Qed.

(** [GROUP BY] on rows that start with all the rows of one key. *)
Lemma groupBy_block (key : A -> K) (k : K) (block rest : list A) :
  block <> [] ->
  (forall r, r ∈ block -> key r = k) ->
  (forall r, r ∈ rest -> key r <> k) ->
  groupBy key (block ++ rest) = (k, block) :: groupBy key rest.
Proof.
  intros Hne Hblock Hrest. unfold groupBy.
  rewrite map_app, (remove_dups_run k).
  - cbn [List.map]. f_equal.
    + f_equal. rewrite List.filter_app, filter_all, filter_none.
      * apply app_nil_r.
      * intros r Hr. apply bool_decide_eq_false_2. apply Hrest. exact Hr.
      * intros r Hr. apply bool_decide_eq_true_2. apply Hblock. exact Hr.
    + apply map_ext_in. intros k' Hk'. f_equal.
      rewrite List.filter_app, filter_none; [reflexivity |].
      intros r Hr. apply bool_decide_eq_false_2. intros Hkey.
      apply list_elem_of_In, elem_of_remove_dups, list_elem_of_In, in_map_iff in Hk'.
      destruct Hk' as (r' & Hr' & Hin).
      apply (Hrest r'); [apply list_elem_of_In; exact Hin |].
      rewrite Hr', <- Hkey. apply Hblock. exact Hr.
  - destruct block; [congruence | discriminate].
  - intros x Hx. apply list_elem_of_In, in_map_iff in Hx.
    destruct Hx as (r & <- & Hr). apply Hblock. apply list_elem_of_In. exact Hr.
  - intros Hk. apply list_elem_of_In, in_map_iff in Hk.
    destruct Hk as (r & Hkey & Hr). apply (Hrest r); [apply list_elem_of_In |]; assumption.
Qed.

(** [GROUP BY] on rows that come key by key gives the blocks back. *)
Lemma groupBy_blocks (key : A -> K) (blocks : list (K * list A)) :
  NoDup (fst <$> blocks) ->
  (forall k b, (k, b) ∈ blocks -> b <> [] /\ forall r, r ∈ b -> key r = k) ->
  groupBy key (concat (snd <$> blocks)) = blocks.
Proof.
  induction blocks as [| [k b] blocks IH]; intros Hkeys Hblocks; [reflexivity |].
  rewrite fmap_cons in Hkeys. apply NoDup_cons in Hkeys as [Hfresh Hkeys].
  rewrite fmap_cons. cbn [concat snd].
  destruct (Hblocks k b) as [Hne Hb]; [left |].
  rewrite (groupBy_block key k).
  - f_equal. apply IH; [exact Hkeys |].
    intros k' b' Hin. apply Hblocks. right. exact Hin.
  - exact Hne.
  - exact Hb.
  - intros r Hr Hkey. apply Hfresh.
    apply list_elem_of_In, in_concat in Hr. destruct Hr as (b' & Hb' & Hr).
    apply list_elem_of_In, list_elem_of_fmap in Hb'. destruct Hb' as ([k' b''] & -> & Hin).
    destruct (Hblocks k' b'') as [_ Hk']; [right; exact Hin |].
    apply list_elem_of_fmap. exists (k', b''). split; [| exact Hin].
    simpl. rewrite <- Hkey. apply Hk'. apply list_elem_of_In. exact Hr.
Qed.

(** Joining the result of a [flat_map], piece by piece. *)
Lemma flat_map_pieces {C : Type} (f : A -> list B) (g : B -> list C) (l : list A) :
  flat_map g (flat_map f l) = concat ((fun a => flat_map g (f a)) <$> l).
Proof.
  induction l as [| a l IH]; [reflexivity |].
  simpl. rewrite flat_map_app, IH. reflexivity.
Qed.

End Relational.

(** * Counting the rows of a join *)

Section Counting.

Context {A B : Type}.

Lemma list_sum_zero (l : list B) : list_sum (List.map (fun _ => 0%nat) l) = 0%nat.
Proof. induction l as [| b l IH]; [reflexivity | exact IH]. Qed.

Lemma count_matches_cons (P : A -> B -> bool) (a : A) (la : list A) (lb : list B) :
  list_sum (List.map (fun b => length (List.filter (fun a' => P a' b) (a :: la))) lb) =
  (length (List.filter (P a) lb)
   + list_sum (List.map (fun b => length (List.filter (fun a' => P a' b) la)) lb))%nat.
Proof.
  induction lb as [| b lb IH]; [reflexivity |].
  simpl in IH |- *. rewrite IH.
  destruct (P a b); simpl; lia.
Qed.

(** Counting the matching pairs row by row or column by column. *)
Lemma count_matches_swap (P : A -> B -> bool) (la : list A) (lb : list B) :
  list_sum (List.map (fun a => length (List.filter (P a) lb)) la) =
  list_sum (List.map (fun b => length (List.filter (fun a => P a b) la)) lb).
Proof.
  induction la as [| a la IH].
  - simpl. symmetry. apply list_sum_zero.
  - rewrite count_matches_cons. simpl. rewrite IH. reflexivity.
Qed.

Lemma list_sum_indicator (P : A -> Prop) `{forall a, Decision (P a)} (l : list A) :
  list_sum (List.map (fun a => if bool_decide (P a) then 1%nat else 0%nat) l) =
  length (filter P l).
Proof.
  induction l as [| a l IH]; [reflexivity |].
  cbn [List.map].
  destruct (decide (P a)) as [Ha | Ha].
  - rewrite bool_decide_eq_true_2, filter_cons_True by exact Ha.
    cbn [length]. rewrite <- IH. reflexivity.
  - rewrite bool_decide_eq_false_2, filter_cons_False by exact Ha.
    rewrite <- IH. reflexivity.
Qed.

End Counting.

(** In a table without repeated rows, the rows of one tag that point to
    one workflow are one row or none. *)
Lemma one_link_per_pair (links : list WorkflowsTags) (w t : Z) :
  NoDup links ->
  length (List.filter (fun link => bool_decide (link_workflowId link = w))
            (List.filter (fun link => bool_decide (link_tagId link = t)) links)) =
  if bool_decide (mkLink w t ∈ links) then 1%nat else 0%nat.
Proof.
  induction links as [| [w' t'] links IH]; intros Hkey; [reflexivity |].
  apply NoDup_cons in Hkey as [Hfresh Hkey]. specialize (IH Hkey).
  cbn [List.filter link_tagId link_workflowId].
  destruct (decide (t' = t)) as [-> | Ht].
  - rewrite (bool_decide_eq_true_2 (t = t)) by reflexivity.
    cbn [List.filter link_workflowId].
    destruct (decide (w' = w)) as [-> | Hw].
    + rewrite (bool_decide_eq_true_2 (w = w)) by reflexivity.
      rewrite (bool_decide_eq_true_2 (_ ∈ _ :: _)) by left.
      rewrite (bool_decide_eq_false_2 _ Hfresh) in IH.
      cbn [length]. rewrite IH. reflexivity.
    + rewrite (bool_decide_eq_false_2 (w' = w)) by exact Hw.
      rewrite IH. symmetry. rewrite (bool_decide_ext _ (mkLink w t ∈ links)); [reflexivity |].
      rewrite elem_of_cons. split; [| tauto]. intros [Heq | Hin]; [congruence | exact Hin].
  - rewrite (bool_decide_eq_false_2 (t' = t)) by exact Ht.
    rewrite IH. symmetry. rewrite (bool_decide_ext _ (mkLink w t ∈ links)); [reflexivity |].
    rewrite elem_of_cons. split; [| tauto]. intros [Heq | Hin]; [congruence | exact Hin].
Qed.

(** * Properties of [getAllTagsWithUsageCount] *)

Section UsageCount.

Variable db : Db.

Lemma tagsJoinWorkflows_by_tag :
  tagsJoinWorkflows db = concat (tagRows db <$> tag_entity db).
Proof. apply flat_map_pieces. Qed.

Lemma withLinks_tag (t : ITagDb) (row : ITagDb * option WorkflowsTags) :
  row ∈ withLinks db t -> fst row = t.
Proof.
  unfold withLinks. destruct (List.filter _ _) as [| link links].
  - intros Hrow. apply list_elem_of_singleton in Hrow. subst row. reflexivity.
  - intros Hrow. apply list_elem_of_In, in_map_iff in Hrow.
    destruct Hrow as (l & <- & _). reflexivity.
Qed.

Lemma withWorkflows_row (row : ITagDb * option WorkflowsTags) (r : JoinedRow) :
  r ∈ withWorkflows db row -> fst r = row.
Proof.
  unfold withWorkflows. destruct (List.filter _ _) as [| w ws].
  - intros Hr. apply list_elem_of_singleton in Hr. subst r. reflexivity.
  - intros Hr. apply list_elem_of_In, in_map_iff in Hr.
    destruct Hr as (w' & <- & _). reflexivity.
Qed.

Lemma tagRows_tag (t : ITagDb) (r : JoinedRow) :
  r ∈ tagRows db t -> fst (fst r) = t.
Proof.
  intros Hr. apply list_elem_of_In, in_flat_map in Hr.
  destruct Hr as (row & Hrow & Hr).
  apply list_elem_of_In, withLinks_tag in Hrow.
  apply list_elem_of_In, withWorkflows_row in Hr.
  rewrite Hr. exact Hrow.
Qed.

Lemma tagRows_head (t : ITagDb) :
  exists r rows, tagRows db t = r :: rows /\ fst (fst r) = t.
Proof.
  assert (Hne : tagRows db t <> []).
  { unfold tagRows, withLinks.
    destruct (List.filter _ (workflows_tags db)) as [| link links];
      cbn [List.map flat_map]; unfold withWorkflows;
      destruct (List.filter _ (workflow_entity db)); discriminate. }
  destruct (tagRows db t) as [| r rows] eqn:Hrows; [congruence |].
  exists r, rows. split; [reflexivity |].
  apply tagRows_tag. rewrite Hrows. left.
Qed.

Lemma countWorkflows_app (rows1 rows2 : list JoinedRow) :
  countWorkflows (rows1 ++ rows2) = countWorkflows rows1 + countWorkflows rows2.
Proof.
  unfold countWorkflows, count. rewrite List.filter_app, length_app. lia.
Qed.

Lemma countWorkflows_matched (row : ITagDb * option WorkflowsTags) (ws : list WorkflowEntity) :
  countWorkflows (List.map (fun w => (row, Some w)) ws) = Z.of_nat (length ws).
Proof.
  induction ws as [| w ws IH]; [reflexivity |].
  change (List.map (fun w => (row, Some w)) (w :: ws))
    with ([(row, Some w)] ++ List.map (fun w => (row, Some w)) ws).
  rewrite countWorkflows_app, IH. cbn [length]. unfold countWorkflows, count. simpl. lia.
Qed.

Lemma countWorkflows_withWorkflows (row : ITagDb * option WorkflowsTags) :
  countWorkflows (withWorkflows db row) =
  Z.of_nat (length (List.filter (onWorkflow row) (workflow_entity db))).
Proof.
  unfold withWorkflows. destruct (List.filter _ _) as [| w ws]; [reflexivity |].
  apply countWorkflows_matched.
Qed.

Lemma countWorkflows_flat_map (rows : list (ITagDb * option WorkflowsTags)) :
  countWorkflows (flat_map (withWorkflows db) rows) =
  Z.of_nat (list_sum (List.map
    (fun row => length (List.filter (onWorkflow row) (workflow_entity db))) rows)).
Proof.
  induction rows as [| row rows IH]; [reflexivity |].
  cbn [flat_map List.map].
  rewrite countWorkflows_app, countWorkflows_withWorkflows, IH.
  change (list_sum (?x :: ?l)) with (x + list_sum l)%nat. lia.
Qed.

(** The count of a tag, link by link. *)
Lemma countWorkflows_by_link (t : ITagDb) :
  countWorkflows (tagRows db t) =
  Z.of_nat (list_sum (List.map
    (fun link => length (List.filter
       (fun w => bool_decide (link_workflowId link = workflow_id w)) (workflow_entity db)))
    (List.filter (fun link => bool_decide (link_tagId link = tag_id t)) (workflows_tags db)))).
Proof.
  unfold tagRows. rewrite countWorkflows_flat_map. f_equal.
  unfold withLinks. destruct (List.filter _ (workflows_tags db)) as [| link links].
  - cbn [List.map]. rewrite filter_none; [reflexivity |]. intros w _. reflexivity.
  - rewrite List.map_map. reflexivity.
Qed.

(** The count of a tag is the number of workflows linked to it. *)
Lemma countWorkflows_linked (t : ITagDb) :
  primaryKeys db ->
  countWorkflows (tagRows db t) = Z.of_nat (size (linkedWorkflows db (tag_id t))).
Proof.
  intros [_ Hworkflows Hlinks].
  rewrite countWorkflows_by_link. f_equal.
  rewrite (count_matches_swap
    (fun link w => bool_decide (link_workflowId link = workflow_id w))).
  rewrite (map_ext_in _
    (fun w => if bool_decide (mkLink (workflow_id w) (tag_id t) ∈ workflows_tags db)
              then 1%nat else 0%nat)).
  - rewrite (list_sum_indicator
      (fun w => mkLink (workflow_id w) (tag_id t) ∈ workflows_tags db)).
    unfold linkedWorkflows. rewrite size_list_to_set, length_fmap; [reflexivity |].
    eapply sublist_NoDup; [exact Hworkflows |].
    apply fmap_sublist. apply sublist_filter.
  - intros w _. apply one_link_per_pair. exact Hlinks.
Qed.

End UsageCount.

(** C8: with the keys of the three tables in place,
    [getAllTagsWithUsageCount] returns one row for every stored tag, linked
    or not, with the tag's ID and name, and [usageCount] is the number of
    distinct workflows linked to the tag; the store is only read. *)
Theorem getAllTagsWithUsageCount_rows (db : Db) :
  primaryKeys db ->
  getAllTagsWithUsageCount db =
  mkRun (inr ((fun t => {| usage_id := tag_id t;
                           usage_name := tag_name t;
                           usageCount := Z.of_nat (size (linkedWorkflows db (tag_id t))) |})
               <$> tag_entity db))
        db [SelectTagsWithUsageCount].
Proof.
  intros Hkeys. unfold getAllTagsWithUsageCount, query. do 2 f_equal.
  rewrite tagsJoinWorkflows_by_tag.
  replace (tagRows db <$> tag_entity db)
    with (snd <$> ((fun t => (tag_id t, tagRows db t)) <$> tag_entity db))
    by (rewrite <- list_fmap_compose; reflexivity).
  rewrite groupBy_blocks.
  - change (@List.map) with (@fmap list _). rewrite <- list_fmap_compose.
    apply list_fmap_ext. intros i t _. unfold compose. cbn [fst snd].
    destruct (tagRows_head db t) as (r & rows & Hrows & Htag).
    f_equal.
    + rewrite Hrows. simpl. rewrite Htag. reflexivity.
    + apply countWorkflows_linked. exact Hkeys.
  - rewrite <- list_fmap_compose. apply (tag_key db Hkeys).
  - intros k b Hin. apply list_elem_of_fmap in Hin as (t & Heq & _).
    injection Heq as -> ->. split.
    + destruct (tagRows_head db t) as (r & rows & -> & _). discriminate.
    + intros r Hr. rewrite (tagRows_tag db t r Hr). reflexivity.
Qed.

(** The spec's test: tag 2 is linked to no workflow and reports 0; tag 1
    is linked to two workflows and to the key of a workflow that is gone. *)
Lemma getAllTagsWithUsageCount_rows_witness :
  let db := mkDb [mkTag 1 "ops" 0 0; mkTag 2 "idle" 0 0]
                 [mkLink 10 1; mkLink 11 1; mkLink 12 1]
                 [mkWorkflow 10 "sync"; mkWorkflow 11 "report"] [] [] in
  outcome (getAllTagsWithUsageCount db) =
  inr [mkTagUsage 1 "ops" 2; mkTagUsage 2 "idle" 0].
Proof.
  intros db.
  rewrite (getAllTagsWithUsageCount_rows db).
  - vm_compute. reflexivity.
  - split; vm_compute; repeat constructor;
      rewrite ?elem_of_cons, ?elem_of_nil; intuition discriminate.
Defined.

(** * Properties of [isOwned] *)

Section IsOwned.

Variable db : Db.

Lemma sharingOf_record (credentialId userId : string) (row : SharedCredentials) :
  row ∈ shared_credentials db ->
  sharingOf credentialId (Some userId) row = true <->
  sharingRecord db userId credentialId row.
Proof.
  intros Hin. unfold sharingOf, sharingRecord.
  rewrite andb_true_iff, !bool_decide_eq_true. tauto.
Qed.

(** What [isOwned] does: one lookup, keyed by the credential and by the
    user's own ID. *)
Lemma isOwned_run (u : User) (credentialId : string) :
  isOwned u credentialId db =
  mkRun (inr match List.find (sharingOf credentialId (Some (user_id u)))
                              (shared_credentials db) with
             | Some row => {| ownsCredential := true; credential := Some (credentials row) |}
             | None => {| ownsCredential := false; credential := None |}
             end)
        db [FindOneSharedCredentials credentialId (Some (user_id u)) ["credentials"]].
Proof.
  unfold isOwned, getSharing. cbn [andb]. rewrite run_query_bind.
  destruct (List.find _ _); reflexivity.
Qed.

Lemma find_sharing_None (u : User) (c : CredentialsEntity) :
  ~ hasSharing db u c ->
  List.find (sharingOf (credentials_id c) (Some (user_id u))) (shared_credentials db) = None.
Proof.
  intros Hnone. destruct (List.find _ _) as [row |] eqn:Hfind; [| reflexivity].
  apply find_some in Hfind as [Hin Hmatch]. apply list_elem_of_In in Hin.
  exfalso. apply Hnone. exists row. apply sharingOf_record; assumption.
Qed.

Lemma find_sharing_Some (u : User) (c : CredentialsEntity) :
  credentialsKey db -> owns db u c ->
  exists row,
    List.find (sharingOf (credentials_id c) (Some (user_id u))) (shared_credentials db)
      = Some row
    /\ credentials row = c.
Proof.
  intros Hkey (own & (Hown & Hcred & Huser) & Hc & _).
  destruct (List.find _ _) as [row |] eqn:Hfind.
  - exists row. split; [reflexivity |].
    apply find_some in Hfind as [Hin Hmatch]. apply list_elem_of_In in Hin.
    apply sharingOf_record in Hmatch as (_ & Hid & _); [| exact Hin].
    rewrite <- Hc. apply Hkey; [exact Hin | exact Hown | congruence].
  - exfalso. apply list_elem_of_In in Hown.
    pose proof (find_none _ _ Hfind own Hown) as Hmiss.
    unfold sharingOf in Hmiss.
    rewrite !bool_decide_eq_true_2 in Hmiss by assumption. discriminate.
Qed.

End IsOwned.

(** C1: for a credential C with owner O, [isOwned(O, C.id)] returns
    [{ownsCredential: true}] with C attached; for a user U who neither owns
    C nor holds a sharing record for it, [isOwned(U, C.id)] returns
    [{ownsCredential: false}] with nothing attached. In both cases the
    only statement sent is a lookup keyed by the credential and by the
    user's own ID, whatever the user's global role (the global-owner
    override is off), and the store is left as it was. *)
Theorem isOwned_owner_and_stranger (db : Db) (c : CredentialsEntity) :
  (forall o, credentialsKey db -> owns db o c ->
     isOwned o (credentials_id c) db =
     mkRun (inr {| ownsCredential := true; credential := Some c |}) db
           [FindOneSharedCredentials (credentials_id c) (Some (user_id o)) ["credentials"]])
  /\ (forall u, ~ owns db u c -> ~ hasSharing db u c ->
       isOwned u (credentials_id c) db =
       mkRun (inr {| ownsCredential := false; credential := None |}) db
             [FindOneSharedCredentials (credentials_id c) (Some (user_id u)) ["credentials"]]).
Proof.
  split.
  - intros o Hkey Hown. rewrite isOwned_run.
    destruct (find_sharing_Some db o c Hkey Hown) as (row & -> & ->). reflexivity.
  - intros u _ Hnone. rewrite isOwned_run, find_sharing_None by exact Hnone. reflexivity.
Qed.

(** Ann owns the credential; the instance owner, who holds no record for
    it, is told that they do not own it. *)
Lemma isOwned_owner_and_stranger_witness :
  let member := mkRole "global" "member" in
  let ann := mkUser "ann" member in
  let root := mkUser "root" globalOwner in
  let c := mkCredentials "c1" "secret" in
  let db := mkDb [] [] [] [mkSharing c ann credentialOwner] [] in
  outcome (isOwned ann "c1" db) = inr {| ownsCredential := true; credential := Some c |}
  /\ outcome (isOwned root "c1" db) = inr {| ownsCredential := false; credential := None |}.
Proof.
  intros member ann root c db.
  destruct (isOwned_owner_and_stranger db c) as [Howner Hstranger].
  split.
  - change (isOwned ann "c1" db) with (isOwned ann (credentials_id c) db).
    rewrite (Howner ann); [reflexivity | |].
    + intros row1 row2 H1 H2 _.
      apply list_elem_of_singleton in H1, H2. congruence.
    + exists (mkSharing c ann credentialOwner).
      repeat split. apply list_elem_of_singleton. reflexivity.
  - change (isOwned root "c1" db) with (isOwned root (credentials_id c) db).
    rewrite (Hstranger root); [reflexivity | |].
    + intros (row & (Hin & _ & Huser) & _).
      apply list_elem_of_singleton in Hin. subst row. discriminate.
    + intros (row & Hin & _ & Huser).
      apply list_elem_of_singleton in Hin. subst row. discriminate.
Defined.

(** * Properties of [share] and [unshare] *)

Section Sharing.

Lemma RoleService_get_run (scope name : string) (db : Db) :
  RoleService_get scope name db =
  mkRun (if bool_decide (mkRole scope name ∈ roles db)
         then inr (mkRole scope name)
         else inl (RoleLookupFailure scope name))
        db [FindOneRole scope name].
Proof.
  unfold RoleService_get. rewrite run_query_bind.
  destruct (List.find _ _) as [r |] eqn:Hfind.
  - apply find_some in Hfind as [Hin Hmatch].
    apply andb_true_iff in Hmatch as [Hs Hn].
    apply bool_decide_eq_true in Hs, Hn. destruct r as [s n]. simpl in Hs, Hn. subst s n.
    rewrite bool_decide_eq_true_2 by (apply list_elem_of_In; exact Hin). reflexivity.
  - rewrite bool_decide_eq_false_2; [reflexivity |].
    intros Hin. apply list_elem_of_In in Hin.
    pose proof (find_none _ _ Hfind _ Hin) as Hmiss. simpl in Hmiss.
    rewrite !bool_decide_eq_true_2 in Hmiss by reflexivity. discriminate.
Qed.

(** After [save], the entity is a row of the collection. *)
Lemma save_persists (entity : SharedCredentials) (rows : list SharedCredentials) :
  entity ∈ save entity rows.
Proof.
  unfold save. destruct (existsb _ rows) eqn:Hold.
  - apply existsb_exists in Hold as (row & Hin & Hkey).
    apply list_elem_of_In, in_map_iff. exists row. rewrite Hkey. split; [reflexivity | exact Hin].
  - apply elem_of_app. right. left.
Qed.

Lemma share_run (c : CredentialsEntity) (sharee : User) (db : Db) :
  share c sharee db =
  if bool_decide (credentialEditor ∈ roles db)
  then mkRun (inr (mkSharing c sharee credentialEditor))
             (with_shared_credentials (save (mkSharing c sharee credentialEditor)) db)
             [FindOneRole "credential" "editor";
              SaveSharedCredentials (mkSharing c sharee credentialEditor)]
  else mkRun (inl (RoleLookupFailure "credential" "editor")) db
             [FindOneRole "credential" "editor"].
Proof.
  unfold share. rewrite run_bind, RoleService_get_run.
  fold credentialEditor. destruct (bool_decide _); reflexivity.
Qed.

Lemma unshare_run (credentialId shareeId : string) (db : Db) :
  unshare credentialId shareeId db =
  mkRun (inr tt)
        (with_shared_credentials
           (List.filter (fun row => negb (sharingOf credentialId (Some shareeId) row))) db)
        [DeleteSharedCredentials credentialId shareeId].
Proof. reflexivity. Qed.

(** The rows [unshare] leaves are the rows of other pairs. *)
Lemma unshare_rows (credentialId shareeId : string) (db : Db) (row : SharedCredentials) :
  row ∈ shared_credentials (store (unshare credentialId shareeId db)) <->
  row ∈ shared_credentials db
  /\ ~ (credentials_id (credentials row) = credentialId /\ user_id (user row) = shareeId).
Proof.
  rewrite unshare_run. cbn [store with_shared_credentials shared_credentials].
  rewrite !list_elem_of_In, filter_In, negb_true_iff.
  unfold sharingOf. rewrite andb_false_iff, !bool_decide_eq_false.
  split; intros [Hin Hother]; (split; [exact Hin |]).
  - tauto.
  - destruct (decide (credentials_id (credentials row) = credentialId)); tauto.
Qed.

(** A second [unshare] finds nothing to delete. *)
Lemma unshare_twice (credentialId shareeId : string) (db : Db) :
  unshare credentialId shareeId (store (unshare credentialId shareeId db)) =
  mkRun (inr tt) (store (unshare credentialId shareeId db))
        [DeleteSharedCredentials credentialId shareeId].
Proof.
  rewrite !unshare_run. cbn [store]. f_equal.
  unfold with_shared_credentials. cbn. f_equal.
  apply filter_all. intros row Hrow.
  apply list_elem_of_In, filter_In in Hrow as [_ Hkeep]. exact Hkeep.
Qed.

End Sharing.

(** C2: [share(C, U)] followed by [unshare(C.id, U.id)] leaves no share
    record for the pair (C, U), and the [unshare] succeeds; a second
    [unshare] on the pair succeeds too and changes nothing. On any store
    [unshare] removes the records of exactly the given
    (credentialId, shareeId) pair: every other record stays, and the other
    tables are not touched. *)
Theorem share_then_unshare (c : CredentialsEntity) (sharee : User) (db : Db) :
  let shared := store (share c sharee db) in
  let first := unshare (credentials_id c) (user_id sharee) shared in
  let second := unshare (credentials_id c) (user_id sharee) (store first) in
  (forall row, ~ sharingRecord (store first) (user_id sharee) (credentials_id c) row)
  /\ outcome first = inr tt
  /\ outcome second = inr tt
  /\ store second = store first
  /\ (forall credentialId shareeId db' row,
        row ∈ shared_credentials (store (unshare credentialId shareeId db')) <->
        row ∈ shared_credentials db'
        /\ ~ (credentials_id (credentials row) = credentialId
              /\ user_id (user row) = shareeId))
  /\ (forall credentialId shareeId db',
        let db'' := store (unshare credentialId shareeId db') in
        tag_entity db'' = tag_entity db' /\ workflows_tags db'' = workflows_tags db'
        /\ workflow_entity db'' = workflow_entity db' /\ roles db'' = roles db').
Proof.
  intros shared first second.
  split; [| split; [| split; [| split; [| split]]]].
  - intros row (Hin & Hcred & Huser).
    apply unshare_rows in Hin as [_ Hother]. apply Hother. split; assumption.
  - reflexivity.
  - reflexivity.
  - unfold second, first. rewrite unshare_twice. reflexivity.
  - intros credentialId shareeId db' row. apply unshare_rows.
  - intros credentialId shareeId db' db''. repeat split.
Qed.

(** Bob is granted a share and loses it again; the share of Eve on the
    same credential is still there. *)
Lemma share_then_unshare_witness :
  let member := mkRole "global" "member" in
  let bob := mkUser "bob" member in
  let eve := mkUser "eve" member in
  let c := mkCredentials "c1" "secret" in
  let db := mkDb [] [] [] [mkSharing c eve credentialEditor] [credentialEditor] in
  let final := store (unshare "c1" "bob" (store (share c bob db))) in
  (mkSharing c bob credentialEditor ∈ shared_credentials (store (share c bob db)))
  /\ (mkSharing c bob credentialEditor ∉ shared_credentials final)
  /\ (mkSharing c eve credentialEditor ∈ shared_credentials final).
Proof.
  intros member bob eve c db final.
  destruct (share_then_unshare c bob db) as (Hgone & _ & _ & _ & Hrows & _).
  split; [| split].
  - right. left.
  - intros Hin. apply (Hgone (mkSharing c bob credentialEditor)).
    repeat split. exact Hin.
  - apply Hrows. split.
    + left.
    + intros [_ Huser]. discriminate.
Defined.

(** C6: [share(credential, sharee)] resolves the role of scope "credential"
    and name "editor". When there is no such role the failure of the
    lookup is what [share] throws, and the store is unchanged; otherwise
    [share] saves and returns the record that links the credential, the
    sharee and that role, and the record is in the store afterwards. The
    role lookup and the save are the only statements it sends: no lookup
    of an earlier share, and an earlier share of the pair does not make it
    fail. *)
Theorem share_resolves_editor (c : CredentialsEntity) (sharee : User) (db : Db) :
  (credentialEditor ∉ roles db ->
     share c sharee db =
     mkRun (inl (RoleLookupFailure "credential" "editor")) db
           [FindOneRole "credential" "editor"])
  /\ (credentialEditor ∈ roles db ->
       let record := mkSharing c sharee credentialEditor in
       outcome (share c sharee db) = inr record
       /\ record ∈ shared_credentials (store (share c sharee db))
       /\ issued (share c sharee db) =
            [FindOneRole "credential" "editor"; SaveSharedCredentials record]).
Proof.
  rewrite share_run. split; intros Hrole.
  - rewrite bool_decide_eq_false_2 by exact Hrole. reflexivity.
  - rewrite bool_decide_eq_true_2 by exact Hrole. repeat split.
    apply save_persists.
Qed.

(** Bob already holds a share of the credential: sharing it with him again
    succeeds; without the editor role in the store, [share] throws and the
    store keeps its rows. *)
Lemma share_resolves_editor_witness :
  let member := mkRole "global" "member" in
  let bob := mkUser "bob" member in
  let c := mkCredentials "c1" "secret" in
  let earlier := mkSharing c bob credentialEditor in
  let db := mkDb [] [] [] [earlier] [credentialOwner; credentialEditor] in
  let bare := mkDb [] [] [] [earlier] [credentialOwner] in
  outcome (share c bob db) = inr (mkSharing c bob credentialEditor)
  /\ share c bob bare =
       mkRun (inl (RoleLookupFailure "credential" "editor")) bare
             [FindOneRole "credential" "editor"].
Proof.
  intros member bob c earlier db bare.
  destruct (share_resolves_editor c bob db) as [_ Hok].
  destruct (share_resolves_editor c bob bare) as [Hfail _].
  split.
  - apply Hok. right. left.
  - apply Hfail. intros Hin. apply list_elem_of_singleton in Hin. discriminate.
Defined.


(** * Bound parameters and integer columns *)

Section Columns.

Lemma digitValue_char (d : N) : (d < 10)%N -> digitValue (pretty_N_char d) = d.
Proof.
  intros Hd.
  assert (d = 0 \/ d = 1 \/ d = 2 \/ d = 3 \/ d = 4 \/ d = 5 \/ d = 6 \/ d = 7
          \/ d = 8 \/ d = 9)%N as Hcases by lia.
  repeat (destruct Hcases as [-> | Hcases]; [reflexivity |]). subst d. reflexivity.
Qed.

(** Reading the digits that [pretty] wrote gives the number back. *)
Lemma readDigits_pretty_go (x : N) (s : string) :
  readDigits 0 (pretty_N_go x s) = readDigits x s.
Proof.
  revert s. induction (N.lt_wf_0 x) as [x _ IH]; intros s.
  assert (x = 0 \/ 0 < x)%N as [-> | Hpos] by lia.
  - rewrite pretty_N_go_0. reflexivity.
  - rewrite pretty_N_go_step by exact Hpos.
    rewrite IH by (apply N.div_lt; lia).
    cbn [readDigits]. rewrite digitValue_char by (apply N.mod_lt; lia).
    f_equal. pose proof (N.div_mod x 10). lia.
Qed.

Lemma readDigits_pretty (x : N) : readDigits 0 (pretty x) = x.
Proof.
  unfold pretty, pretty_N. case_decide as Hx; [subst x; reflexivity |].
  rewrite readDigits_pretty_go. reflexivity.
Qed.

Lemma pretty_N_no_dash (p : positive) (rest : string) :
  pretty (N.pos p) <> String "-" rest.
Proof.
  unfold pretty, pretty_N. rewrite decide_False by discriminate.
  apply (pretty_N_go_ne_dash (N.pos p) "" rest). discriminate.
Qed.

Lemma readInteger_toString (z : Z) : readInteger (toString z) = z.
Proof.
  destruct z as [| p | p]; [reflexivity | |].
  - change (toString (Z.pos p)) with (pretty (N.pos p)).
    pose proof (readDigits_pretty (N.pos p)) as Hread.
    pose proof (pretty_N_no_dash p) as Hdash.
    destruct (pretty (N.pos p)) as [| c rest] eqn:Hs; [discriminate Hread |].
    cbn [readInteger]. destruct (Ascii.eqb_spec c "-") as [-> | _].
    + exfalso. apply (Hdash rest). reflexivity.
    + rewrite Hread. reflexivity.
  - change (toString (Z.neg p)) with (String "-" (pretty (N.pos p))).
    cbn [readInteger Ascii.eqb Bool.eqb]. rewrite readDigits_pretty. reflexivity.
Qed.

Lemma isDigit_char (d : N) : isDigit (pretty_N_char d) = true.
Proof. unfold pretty_N_char. repeat case_match; reflexivity. Qed.

Lemma allDigits_pretty_go (x : N) (s : string) :
  allDigits (pretty_N_go x s) = allDigits s.
Proof.
  revert s. induction (N.lt_wf_0 x) as [x _ IH]; intros s.
  assert (x = 0 \/ 0 < x)%N as [-> | Hpos] by lia.
  - rewrite pretty_N_go_0. reflexivity.
  - rewrite pretty_N_go_step by exact Hpos.
    rewrite IH by (apply N.div_lt; lia).
    cbn [allDigits]. rewrite isDigit_char. reflexivity.
Qed.

Lemma allDigits_pretty (x : N) : allDigits (pretty x) = true.
Proof.
  unfold pretty, pretty_N. case_decide; [reflexivity |].
  rewrite allDigits_pretty_go. reflexivity.
Qed.

Lemma pretty_N_nonempty (p : positive) : pretty (N.pos p) <> "".
Proof.
  intros Hempty. pose proof (readDigits_pretty (N.pos p)) as Hread.
  rewrite Hempty in Hread. discriminate Hread.
Qed.

(** The rendering of an integer is a numeral. *)
Lemma isNumeral_toString (z : Z) : isNumeral (toString z) = true.
Proof.
  destruct z as [| p | p]; [reflexivity | |].
  - change (toString (Z.pos p)) with (pretty (N.pos p)).
    pose proof (allDigits_pretty (N.pos p)) as Hdigits.
    pose proof (pretty_N_no_dash p) as Hdash.
    pose proof (pretty_N_nonempty p) as Hne.
    destruct (pretty (N.pos p)) as [| c rest]; [congruence |].
    cbn [isNumeral]. destruct (Ascii.eqb_spec c "-") as [-> | _]; [| exact Hdigits].
    exfalso. apply (Hdash rest). reflexivity.
  - change (toString (Z.neg p)) with (String "-" (pretty (N.pos p))).
    cbn [isNumeral Ascii.eqb Bool.eqb]. rewrite allDigits_pretty.
    pose proof (pretty_N_nonempty p) as Hne.
    destruct (pretty (N.pos p)); [congruence | reflexivity].
Qed.

(** The store reads the rendering of an integer as that integer. *)
Lemma columnOf_toString (z : Z) : columnOf (toString z) = Some z.
Proof.
  unfold columnOf. rewrite isNumeral_toString, readInteger_toString. reflexivity.
Qed.

(** A parameter is read as an integer exactly when it is a numeral. *)
Lemma columnOf_numeral (param : string) :
  isNumeral param = true <-> exists z, columnOf param = Some z.
Proof.
  unfold columnOf. destruct (isNumeral param); split; try eauto; try discriminate.
  intros (z & Hz). discriminate.
Qed.

Lemma bound_columnOf (param : string) (z : Z) :
  bound param z = true <-> columnOf param = Some z.
Proof. apply bound_true. Qed.

Lemma bound_None (param : string) (z : Z) : columnOf param = None -> bound param z = false.
Proof.
  intros Hnone. destruct (bound param z) eqn:Hb; [| reflexivity].
  apply bound_columnOf in Hb. congruence.
Qed.

Lemma bound_eq (param : string) (w z : Z) :
  columnOf param = Some w -> bound param z = bool_decide (z = w).
Proof.
  intros Hw. unfold bound. rewrite Hw. apply bool_decide_ext.
  split; [intros [= ->]; reflexivity | congruence].
Qed.

Lemma bound_toString (w z : Z) : bound (toString w) z = bool_decide (z = w).
Proof. apply bound_eq, columnOf_toString. Qed.

Lemma related_linked (db : Db) (workflowId tagId : string) :
  related db workflowId tagId = true <-> linked db workflowId tagId.
Proof.
  unfold related, linked. rewrite existsb_exists. split.
  - intros (row & Hin & Hb). apply andb_true_iff in Hb as [Hw Ht].
    exists row. rewrite list_elem_of_In. rewrite bound_true in Hw, Ht. tauto.
  - intros (row & Hin & Hw & Ht). exists row. rewrite <- list_elem_of_In.
    split; [exact Hin |]. apply andb_true_iff. rewrite !bound_true. tauto.
Qed.

(** With both parameters read as integers, being linked is the presence
    of one row. *)
Lemma linked_columns (db : Db) (workflowId tagId : string) (w t : Z) :
  columnOf workflowId = Some w -> columnOf tagId = Some t ->
  linked db workflowId tagId <-> mkLink w t ∈ workflows_tags db.
Proof.
  intros Hw Ht. split.
  - intros ([w' t'] & Hin & Hw' & Ht'). simpl in Hw', Ht'.
    assert (w' = w) by congruence. assert (t' = t) by congruence. subst. exact Hin.
  - intros Hin. exists (mkLink w t). auto.
Qed.

Lemma linked_row (db : Db) (w t : Z) :
  linked db (toString w) (toString t) <-> mkLink w t ∈ workflows_tags db.
Proof. apply linked_columns; apply columnOf_toString. Qed.

End Columns.

(** * Properties of [isStringArray] and [formatTagsResponse] *)

(** The guard [isStringArray] accepts exactly the arrays all of whose
    items are strings: it refuses every value that is no array and every
    array with an item of another type, and it accepts the empty array. *)
Theorem isStringArray_guard (tags : JsValue) :
  isStringArray tags = true <-> exists names : list string, tags = JsArray (JsString <$> names).
Proof.
  split.
  - destruct tags as [| | | | | items |]; try discriminate.
    cbn [isStringArray]. intros Hall.
    induction items as [| item items IH].
    + exists []. reflexivity.
    + cbn [forallb] in Hall. apply andb_true_iff in Hall as [Hitem Hall].
      destruct (IH Hall) as (names & Hnames). injection Hnames as ->.
      destruct item; try discriminate Hitem.
      exists (s :: names). reflexivity.
  - intros (names & ->). cbn [isStringArray].
    induction names as [| name names IH]; [reflexivity | exact IH].
Qed.

(** The tags a request names, all stored and with IDs of their own, come
    back as they are and in the order of the request. *)
Lemma sortByRequestOrder_requested (tags req : list ITagDb) :
  NoDup (tag_id <$> tags) ->
  (forall t, t ∈ req -> t ∈ tags) ->
  sortByRequestOrder tags ((fun t => toString (tag_id t)) <$> req) = Own <$> req.
Proof.
  intros Hkey Hstored. unfold sortByRequestOrder.
  rewrite <- list_fmap_compose. apply list_fmap_ext. intros i t Hi.
  assert (Hin : t ∈ tags) by (apply Hstored; eapply list_elem_of_lookup_2; exact Hi).
  apply list_elem_of_split in Hin as (before & after & ->).
  unfold compose, getProperty. rewrite tagMap_last; [reflexivity |].
  intros u Hu Hsame. unfold toString in Hsame. apply (inj pretty) in Hsame.
  rewrite fmap_app, fmap_cons in Hkey.
  apply NoDup_app in Hkey as (_ & _ & Hkey). apply NoDup_cons in Hkey as [Hfresh _].
  apply Hfresh. rewrite <- Hsame. apply list_elem_of_fmap. exists u. split; [reflexivity | exact Hu].
Qed.

(** [sortByRequestOrder] sorts: asked for stored tags by their IDs, in any
    order and any number of times, it returns exactly those tags in the
    order asked, provided the tags of the response have IDs of their own;
    so a request that permutes the response gets a permutation of it. *)
Theorem sortByRequestOrder_reorders (tags req : list ITagDb) :
  NoDup (tag_id <$> tags) ->
  (forall t, t ∈ req -> t ∈ tags) ->
  sortByRequestOrder tags ((fun t => toString (tag_id t)) <$> req) = Own <$> req
  /\ (req ≡ₚ tags ->
      sortByRequestOrder tags ((fun t => toString (tag_id t)) <$> req) ≡ₚ Own <$> tags).
Proof.
  intros Hkey Hstored.
  rewrite sortByRequestOrder_requested by assumption.
  split; [reflexivity |]. intros Hperm. rewrite Hperm. reflexivity.
Qed.

Lemma sortByRequestOrder_reorders_witness :
  let a := mkTag 1 "alpha" 0 0 in
  let b := mkTag 2 "beta" 0 0 in
  let c := mkTag 3 "gamma" 0 0 in
  sortByRequestOrder [a; b; c] ["3"; "1"; "2"; "3"] = [Own c; Own a; Own b; Own c].
Proof.
  intros a b c.
  apply (sortByRequestOrder_reorders [a; b; c] [c; a; b; c]).
  - vm_compute. repeat constructor; rewrite ?elem_of_cons, ?elem_of_nil; intuition discriminate.
  - intros t Ht. rewrite !elem_of_cons in Ht. rewrite !elem_of_cons. tauto.
Defined.

(** [formatTagsResponse] keeps the tags in order with their names, and
    turns IDs of their own into strings of their own; the IDs of the
    formatted response, given to [sortByRequestOrder] as the request, give
    the tags back unchanged. *)
Theorem formatTagsResponse_round_trip (tags : list ITagDb) :
  NoDup (tag_id <$> tags) ->
  NoDup (item_id <$> formatTagsResponse tags)
  /\ item_name <$> formatTagsResponse tags = tag_name <$> tags
  /\ sortByRequestOrder tags (item_id <$> formatTagsResponse tags) = Own <$> tags.
Proof.
  intros Hkey.
  assert (Hids : item_id <$> formatTagsResponse tags
                 = (fun t => toString (tag_id t)) <$> tags).
  { unfold formatTagsResponse. rewrite <- list_fmap_compose. reflexivity. }
  rewrite Hids. split; [| split].
  - replace ((fun t => toString (tag_id t)) <$> tags) with (toString <$> (tag_id <$> tags))
      by (rewrite <- list_fmap_compose; reflexivity).
    apply NoDup_fmap_2; [| exact Hkey]. unfold toString. apply _.
  - unfold formatTagsResponse. rewrite <- list_fmap_compose. reflexivity.
  - apply sortByRequestOrder_requested; [exact Hkey | auto].
Qed.

Lemma formatTagsResponse_round_trip_witness :
  let b := mkTag 2 "beta" 5 6 in
  let a := mkTag 1 "alpha" 7 8 in
  formatTagsResponse [b; a] = [mkItem "2" "beta"; mkItem "1" "alpha"]
  /\ sortByRequestOrder [b; a] (item_id <$> formatTagsResponse [b; a]) = [Own b; Own a].
Proof.
  intros b a. split; [reflexivity |].
  apply (formatTagsResponse_round_trip [b; a]).
  vm_compute. repeat constructor; rewrite ?elem_of_cons, ?elem_of_nil; intuition discriminate.
Defined.

(** * Properties of [getWorkflowTags] *)

Section WorkflowTags.

Lemma filter_filter_andb {A : Type} (p q : A -> bool) (l : list A) :
  List.filter p (List.filter q l) = List.filter (fun x => q x && p x) l.
Proof.
  induction l as [| x l IH]; [reflexivity |].
  simpl. destruct (q x); simpl; [destruct (p x) |]; rewrite IH; reflexivity.
Qed.

Lemma map_const_length {A B : Type} (b : B) (l : list A) :
  List.map (fun _ => b) l = replicate (length l) b.
Proof. induction l as [| x l IH]; [reflexivity | simpl; rewrite IH; reflexivity]. Qed.

(** Behind its [WHERE], the left join is an inner join. *)
Lemma getWorkflowTags_inner_join (workflowId : string) (db : Db) :
  getWorkflowTags workflowId db =
  flat_map (fun t => List.map (fun _ => rawTag t) (linksOf workflowId db t)) (tag_entity db).
Proof.
  unfold getWorkflowTags, leftJoin, linksOf.
  induction (tag_entity db) as [| t tags IH]; [reflexivity |].
  cbn [flat_map]. rewrite List.filter_app, List.map_app, IH. f_equal.
  destruct (List.filter _ (workflows_tags db)) as [| link links]; [reflexivity |].
  rewrite filter_map_swap, List.map_map. reflexivity.
Qed.

Lemma linksOf_elem (workflowId : string) (db : Db) (t : ITagDb) (link : WorkflowsTags) :
  link ∈ linksOf workflowId db t <->
  link ∈ workflows_tags db /\ link_tagId link = tag_id t
  /\ columnOf workflowId = Some (link_workflowId link).
Proof.
  unfold linksOf. rewrite !list_elem_of_In, !filter_In, bound_true, bool_decide_eq_true.
  tauto.
Qed.

Lemma linksOf_related (workflowId : string) (db : Db) (t : ITagDb) :
  NoDup (workflows_tags db) ->
  length (linksOf workflowId db t) =
  if related db workflowId (toString (tag_id t)) then 1%nat else 0%nat.
Proof.
  intros Hkey. unfold linksOf.
  destruct (columnOf workflowId) as [w |] eqn:Hw.
  - rewrite (filter_ext _ (fun link => bool_decide (link_workflowId link = w)))
      by (intros link; apply bound_eq; exact Hw).
    rewrite one_link_per_pair by exact Hkey.
    pose proof (linked_columns db workflowId (toString (tag_id t)) w (tag_id t) Hw
                  (columnOf_toString _)) as Hrow.
    destruct (related db workflowId (toString (tag_id t))) eqn:Hrel.
    + apply related_linked, Hrow in Hrel.
      rewrite bool_decide_eq_true_2 by exact Hrel. reflexivity.
    + rewrite bool_decide_eq_false_2; [reflexivity |].
      intros Hin. apply Hrow, related_linked in Hin. congruence.
  - rewrite filter_none by (intros link _; apply bound_None; exact Hw).
    destruct (related db workflowId (toString (tag_id t))) eqn:Hrel; [| reflexivity].
    apply related_linked in Hrel as (row & _ & Hrow & _). congruence.
Qed.

Lemma getWorkflowTags_elem (workflowId : string) (db : Db) (row : RawTag) :
  row ∈ getWorkflowTags workflowId db <->
  exists t, t ∈ tag_entity db /\ linked db workflowId (toString (tag_id t)) /\ row = rawTag t.
Proof.
  rewrite getWorkflowTags_inner_join, list_elem_of_In, in_flat_map. split.
  - intros (t & Ht & Hrow). apply in_map_iff in Hrow as (link & <- & Hlink).
    apply list_elem_of_In, linksOf_elem in Hlink as (Hin & Htag & Hw).
    exists t. split; [apply list_elem_of_In; exact Ht |]. split; [| reflexivity].
    exists link. rewrite columnOf_toString, Htag. auto.
  - intros (t & Ht & (link & Hin & Hw & Htag) & ->).
    exists t. split; [apply list_elem_of_In; exact Ht |].
    apply in_map_iff. exists link. split; [reflexivity |].
    apply list_elem_of_In, linksOf_elem.
    rewrite columnOf_toString in Htag. injection Htag as Htag. auto.
Qed.

Lemma getWorkflowTags_closed (workflowId : string) (db : Db) :
  NoDup (workflows_tags db) ->
  getWorkflowTags workflowId db =
  List.map rawTag
    (List.filter (fun t => related db workflowId (toString (tag_id t))) (tag_entity db)).
Proof.
  intros Hkey. rewrite getWorkflowTags_inner_join.
  induction (tag_entity db) as [| t tags IH]; [reflexivity |].
  cbn [flat_map List.filter]. rewrite IH, map_const_length, linksOf_related by exact Hkey.
  destruct (related db workflowId (toString (tag_id t))); reflexivity.
Qed.

Lemma tag_key_inj (tags : list ITagDb) (x y : ITagDb) :
  NoDup (tag_id <$> tags) -> x ∈ tags -> y ∈ tags -> tag_id x = tag_id y -> x = y.
Proof.
  intros Hkey Hx Hy Hid.
  apply list_elem_of_lookup in Hx as [i Hi], Hy as [j Hj].
  assert (i = j).
  { apply (NoDup_lookup _ i j (tag_id x) Hkey);
      rewrite list_lookup_fmap; [rewrite Hi | rewrite Hj]; simpl; congruence. }
  subst j. congruence.
Qed.

(** With both keys in place no tag is listed twice. *)
Lemma getWorkflowTags_NoDup (workflowId : string) (db : Db) :
  NoDup (workflows_tags db) -> NoDup (tag_id <$> tag_entity db) ->
  NoDup (getWorkflowTags workflowId db).
Proof.
  intros Hkey Htags. rewrite getWorkflowTags_closed by exact Hkey.
  change (@List.map) with (@fmap list _).
  apply NoDup_fmap_2_strong.
  - intros x y Hx Hy Heq.
    apply list_elem_of_In, filter_In in Hx as [Hx _].
    apply list_elem_of_In, filter_In in Hy as [Hy _].
    apply list_elem_of_In in Hx, Hy.
    apply (tag_key_inj _ x y Htags Hx Hy). injection Heq; auto.
  - apply NoDup_ListNoDup, List.NoDup_filter, NoDup_ListNoDup.
    eapply NoDup_fmap_1. exact Htags.
Qed.

End WorkflowTags.

(** For a workflow ID that is a numeral, [getWorkflowTags(W)] returns a
    row exactly for the stored tags that the link table pairs with the
    workflow the store reads W as ("07" as 7): a tag without a link, or
    linked to other workflows only, is left out although the join is a
    left join. With the keys of tags and links in place no tag is listed
    twice, and the rows are as many as the stored tags related to W. *)
Theorem getWorkflowTags_linked (workflowId : string) (db : Db) :
  isNumeral workflowId = true ->
  (forall row,
      row ∈ getWorkflowTags workflowId db <->
      exists t, t ∈ tag_entity db /\ linked db workflowId (toString (tag_id t))
                /\ row = rawTag t)
  /\ (NoDup (workflows_tags db) -> NoDup (tag_id <$> tag_entity db) ->
      NoDup (getWorkflowTags workflowId db))
  /\ (NoDup (workflows_tags db) ->
      getWorkflowTags workflowId db ≡ₚ
      List.map rawTag
        (List.filter (fun t => related db workflowId (toString (tag_id t))) (tag_entity db))
      /\ forall t, related db workflowId (toString (tag_id t)) = true
                   <-> linked db workflowId (toString (tag_id t))).
Proof.
  intros _. split; [apply getWorkflowTags_elem |].
  split; [apply getWorkflowTags_NoDup |]. intros Hkey. split.
  - rewrite getWorkflowTags_closed by exact Hkey. reflexivity.
  - intros t. apply related_linked.
Qed.

(** Tag 1 is linked to workflow 10 and to workflow 11, tag 2 to workflow 11
    only, tag 3 to none: workflow 10, asked for as "010", has tag 1 alone. *)
Lemma getWorkflowTags_linked_witness :
  let db := mkDb [mkTag 1 "ops" 0 0; mkTag 2 "idle" 0 0; mkTag 3 "new" 0 0]
                 [mkLink 10 1; mkLink 11 1; mkLink 11 2]
                 [mkWorkflow 10 "sync"; mkWorkflow 11 "report"] [] [] in
  getWorkflowTags "010" db ≡ₚ [mkRawTag 1 "ops"]
  /\ mkRawTag 2 "idle" ∈ getWorkflowTags "11" db.
Proof.
  intros db.
  assert (Hkey : NoDup (workflows_tags db)).
  { vm_compute. repeat constructor; rewrite ?elem_of_cons, ?elem_of_nil; intuition discriminate. }
  split.
  - destruct (getWorkflowTags_linked "010" db eq_refl) as (_ & _ & Hclosed).
    destruct (Hclosed Hkey) as (Hrows & _). rewrite Hrows. reflexivity.
  - destruct (getWorkflowTags_linked "11" db eq_refl) as (Helem & _).
    apply Helem. exists (mkTag 2 "idle" 0 0). split; [right; left |].
    split; [| reflexivity]. exists (mkLink 11 2). split; [right; right; left |].
    split; reflexivity.
Defined.

(** * Properties of [removeRelations] *)

Section RemoveRelations.

Variables (workflowId : string) (db : Db).

Lemma removeRelations_links (link : WorkflowsTags) :
  link ∈ workflows_tags (removeRelations workflowId db) <->
  link ∈ workflows_tags db /\ columnOf workflowId <> Some (link_workflowId link).
Proof.
  unfold removeRelations. cbn [with_workflows_tags workflows_tags].
  rewrite !list_elem_of_In, filter_In, negb_true_iff.
  unfold bound. rewrite bool_decide_eq_false. reflexivity.
Qed.

Lemma removeRelations_unlinked (tagId : string) :
  ~ linked (removeRelations workflowId db) workflowId tagId.
Proof.
  intros (link & Hin & Hw & _). apply removeRelations_links in Hin as [_ Hother].
  contradiction.
Qed.

Lemma removeRelations_others (other tagId : string) :
  columnOf other <> columnOf workflowId ->
  linked (removeRelations workflowId db) other tagId <-> linked db other tagId.
Proof.
  intros Hother. split.
  - intros (link & Hin & Hw & Ht). apply removeRelations_links in Hin as [Hin _].
    exists link. auto.
  - intros (link & Hin & Hw & Ht). exists link. repeat split; try assumption.
    apply removeRelations_links. split; [exact Hin | congruence].
Qed.

Lemma removeRelations_linksOf (other : string) (t : ITagDb) :
  columnOf other <> columnOf workflowId ->
  linksOf other (removeRelations workflowId db) t = linksOf other db t.
Proof.
  intros Hother. unfold linksOf, removeRelations.
  cbn [with_workflows_tags workflows_tags].
  rewrite !filter_filter_andb. apply filter_ext. intros link.
  destruct (bound other (link_workflowId link)) eqn:Hb; [| rewrite !andb_false_r; reflexivity].
  replace (bound workflowId (link_workflowId link)) with false; [reflexivity |].
  symmetry. apply not_true_is_false. intros Hw.
  apply bound_true in Hb, Hw. congruence.
Qed.

Lemma getWorkflowTags_after_remove (other : string) :
  columnOf other <> columnOf workflowId ->
  getWorkflowTags other (removeRelations workflowId db) = getWorkflowTags other db.
Proof.
  intros Hother. rewrite !getWorkflowTags_inner_join.
  apply flat_map_ext. intros t.
  rewrite removeRelations_linksOf by exact Hother. reflexivity.
Qed.

End RemoveRelations.

(** For a workflow ID that is a numeral, [removeRelations(W)] deletes
    every link of the workflow the store reads W as, and nothing else:
    that workflow is related to no tag afterwards and [getWorkflowTags(W)]
    is empty; for every numeral that is read as another workflow, the
    links and the tags listed are as before; the other tables are
    untouched; a link table without repeated pairs stays so; and a second
    [removeRelations(W)] changes nothing. *)
Theorem removeRelations_clears (workflowId : string) (db : Db) :
  isNumeral workflowId = true ->
  let db' := removeRelations workflowId db in
  (forall tagId, ~ linked db' workflowId tagId)
  /\ getWorkflowTags workflowId db' = []
  /\ (forall other tagId, isNumeral other = true ->
        columnOf other <> columnOf workflowId ->
        (linked db' other tagId <-> linked db other tagId))
  /\ (forall other, isNumeral other = true ->
        columnOf other <> columnOf workflowId ->
        getWorkflowTags other db' ≡ₚ getWorkflowTags other db)
  /\ (tag_entity db' = tag_entity db /\ workflow_entity db' = workflow_entity db
      /\ shared_credentials db' = shared_credentials db /\ roles db' = roles db)
  /\ (NoDup (workflows_tags db) -> NoDup (workflows_tags db'))
  /\ removeRelations workflowId db' = db'.
Proof.
  intros _ db'. split; [| split; [| split; [| split; [| split; [| split]]]]].
  - apply removeRelations_unlinked.
  - apply elem_of_nil_inv. intros row Hrow.
    apply getWorkflowTags_elem in Hrow as (t & _ & Hlinked & _).
    exact (removeRelations_unlinked workflowId db _ Hlinked).
  - intros other tagId _. apply removeRelations_others.
  - intros other _ Hother. subst db'.
    rewrite getWorkflowTags_after_remove by exact Hother. reflexivity.
  - repeat split.
  - intros Hkey. apply NoDup_ListNoDup, List.NoDup_filter, NoDup_ListNoDup. exact Hkey.
  - unfold db', removeRelations, with_workflows_tags. cbn. f_equal.
    rewrite filter_filter_andb. apply filter_ext. intros link.
    destruct (bound workflowId (link_workflowId link)); reflexivity.
Qed.

(** Asked to clear workflow "07", the store clears workflow 7: its two
    links go, and the link and the tag of workflow 11 stay. *)
Lemma removeRelations_clears_witness :
  let db := mkDb [mkTag 1 "ops" 0 0; mkTag 2 "idle" 0 0]
                 [mkLink 7 1; mkLink 11 1; mkLink 7 2]
                 [mkWorkflow 7 "sync"; mkWorkflow 11 "report"] [] [] in
  workflows_tags (removeRelations "07" db) = [mkLink 11 1]
  /\ getWorkflowTags "7" (removeRelations "07" db) = []
  /\ getWorkflowTags "11" (removeRelations "07" db) ≡ₚ [mkRawTag 1 "ops"].
Proof.
  intros db.
  destruct (removeRelations_clears "07" db eq_refl) as (_ & _ & _ & Hothers & _).
  split; [reflexivity | split; [reflexivity |]].
  rewrite (Hothers "11" eq_refl) by discriminate. reflexivity.
Defined.

(** * Properties of [createRelations] *)

Section CreateRelations.

Lemma relationValues_Some (workflowId : string) (tagIds : list string)
    (rows : list WorkflowsTags) :
  relationValues workflowId tagIds = Some rows <->
  Forall2 (valueOf workflowId) tagIds rows.
Proof.
  assert (Hvalue : forall tagId row,
    (w ← columnOf workflowId; t ← columnOf tagId; Some (mkLink w t)) = Some row
    <-> valueOf workflowId tagId row).
  { intros tagId [w t]. unfold valueOf. simpl.
    destruct (columnOf workflowId) as [w' |], (columnOf tagId) as [t' |]; simpl;
      split; try (intros [H1 H2]; congruence); try congruence.
    intros [= -> ->]. auto. }
  unfold relationValues. rewrite mapM_Some.
  split; intros Hall; (eapply Forall2_impl; [exact Hall |]);
    intros tagId row; apply Hvalue.
Qed.

(** Numerals for parameters give the values of the statement. *)
Lemma relationValues_defined (workflowId : string) (tagIds : list string) (w : Z) :
  columnOf workflowId = Some w ->
  (forall tagId, tagId ∈ tagIds -> isNumeral tagId = true) ->
  exists rows, Forall2 (valueOf workflowId) tagIds rows.
Proof.
  intros Hw. induction tagIds as [| tagId tagIds IH]; intros Hnum.
  - exists []. constructor.
  - destruct IH as (rows & Hrows); [intros u Hu; apply Hnum; right; exact Hu |].
    destruct (proj1 (columnOf_numeral tagId)) as (t & Ht); [apply Hnum; left |].
    exists (mkLink w t :: rows). constructor; [split; assumption | exact Hrows].
Qed.

Lemma values_elem (workflowId : string) (tagIds : list string) (rows : list WorkflowsTags)
    (row : WorkflowsTags) :
  Forall2 (valueOf workflowId) tagIds rows ->
  row ∈ rows <->
  columnOf workflowId = Some (link_workflowId row)
  /\ Some (link_tagId row) ∈ columnOf <$> tagIds.
Proof.
  induction 1 as [| tagId r tagIds rows [Hw Ht] _ IH].
  - rewrite fmap_nil, !elem_of_nil. tauto.
  - rewrite fmap_cons, !elem_of_cons, IH, Ht. split.
    + intros [-> | [Hrow Hin]]; auto.
    + intros [Hrow [Hsame | Hin]]; [left | auto].
      destruct row as [w t], r as [w' t']. simpl in *. congruence.
Qed.

(** The rows are distinct when the tag IDs are read as distinct integers. *)
Lemma values_NoDup (workflowId : string) (tagIds : list string) (rows : list WorkflowsTags) :
  Forall2 (valueOf workflowId) tagIds rows -> NoDup rows <-> NoDup (columnOf <$> tagIds).
Proof.
  induction 1 as [| tagId r tagIds rows [Hw Ht] Hrest IH]; [split; constructor |].
  rewrite fmap_cons, !NoDup_cons, IH, (values_elem _ _ _ _ Hrest), Ht. tauto.
Qed.

(** The store takes rows that are new, distinct, and refer to stored rows. *)
Lemma insertLinks_accepted (db : Db) (rows links : list WorkflowsTags) :
  (forall row, row ∈ rows -> refersToStored db row = true) ->
  (forall row, row ∈ rows -> row ∉ links) ->
  NoDup rows ->
  insertLinks db rows links = inr (links ++ rows).
Proof.
  revert links. induction rows as [| row rows IH]; intros links Hstored Hnew Hrows.
  - rewrite app_nil_r. reflexivity.
  - apply NoDup_cons in Hrows as [Hfresh Hrows].
    cbn [insertLinks]. rewrite bool_decide_eq_false_2 by (apply Hnew; left).
    rewrite Hstored by left. rewrite IH.
    + rewrite <- app_assoc. reflexivity.
    + intros r Hr. apply Hstored. right. exact Hr.
    + intros r Hr Hin. apply elem_of_app in Hin as [Hin | Hin].
      * apply (Hnew r); [right; exact Hr | exact Hin].
      * apply list_elem_of_singleton in Hin. subst r. contradiction.
    + exact Hrows.
Qed.

(** The store refuses a statement with a row it holds, or with a row twice. *)
Lemma insertLinks_refused (db : Db) (rows links : list WorkflowsTags) :
  (exists row, row ∈ rows /\ row ∈ links) \/ ~ NoDup rows ->
  exists e, insertLinks db rows links = inl e.
Proof.
  revert links. induction rows as [| row rows IH]; intros links Hbad.
  - destruct Hbad as [(row & Hrow & _) | Hdup]; [inversion Hrow |].
    exfalso. apply Hdup. constructor.
  - cbn [insertLinks]. case_bool_decide as Hheld; [eauto |].
    destruct (refersToStored db row); [| eauto].
    apply IH. destruct Hbad as [(r & Hr & Hin) | Hdup].
    + apply elem_of_cons in Hr as [-> | Hr]; [contradiction |].
      left. exists r. split; [exact Hr |]. apply elem_of_app. left. exact Hin.
    + destruct (decide (row ∈ rows)) as [Hin | Hout].
      * left. exists row. split; [exact Hin |]. apply elem_of_app. right. left.
      * right. intros Hrows. apply Hdup. apply NoDup_cons. auto.
Qed.

Lemma createRelations_values (workflowId : string) (tagIds : list string)
    (rows : list WorkflowsTags) (db : Db) :
  tagIds <> [] -> Forall2 (valueOf workflowId) tagIds rows ->
  createRelations workflowId tagIds db =
  Some match insertLinks db rows (workflows_tags db) with
       | inl e => inl e
       | inr links => inr (with_workflows_tags (fun _ => links) db)
       end.
Proof.
  intros Hne Hrows. apply relationValues_Some in Hrows.
  destruct tagIds as [| tagId tagIds]; [congruence |].
  unfold createRelations. rewrite Hrows. reflexivity.
Qed.

(** What makes a request one the store accepts: a stored workflow, stored
    tags, none of them related to the workflow yet, none named twice. *)
Lemma createRelations_accepted (workflowId : string) (tagIds : list string) (db : Db) :
  tagIds <> [] ->
  workflowPresent db workflowId ->
  (forall tagId, tagId ∈ tagIds -> tagPresent db tagId) ->
  (forall tagId, tagId ∈ tagIds -> ~ linked db workflowId tagId) ->
  NoDup (columnOf <$> tagIds) ->
  exists rows, Forall2 (valueOf workflowId) tagIds rows
               /\ createRelations workflowId tagIds db = Some (inr (withLinksAdded rows db)).
Proof.
  intros Hne (w & Hw & Hwid) Htags Hfree Hids.
  destruct (relationValues_defined workflowId tagIds _ Hwid) as (rows & Hrows).
  { intros tagId Hin. destruct (Htags _ Hin) as (t & _ & Ht).
    apply columnOf_numeral. eauto. }
  exists rows. split; [exact Hrows |].
  rewrite (createRelations_values _ _ rows db Hne Hrows).
  rewrite insertLinks_accepted; [reflexivity | | |].
  - intros row Hrow. apply (values_elem _ _ _ _ Hrows) in Hrow as [Hrw Hrt].
    apply list_elem_of_fmap in Hrt as (tagId & Hread & Hin).
    destruct (Htags _ Hin) as (t & Ht & Htid).
    unfold refersToStored. apply andb_true_iff. split; apply existsb_exists.
    + exists w. split; [apply list_elem_of_In; exact Hw |].
      apply bool_decide_eq_true. congruence.
    + exists t. split; [apply list_elem_of_In; exact Ht |].
      apply bool_decide_eq_true. congruence.
  - intros row Hrow Hheld. apply (values_elem _ _ _ _ Hrows) in Hrow as [Hrw Hrt].
    apply list_elem_of_fmap in Hrt as (tagId & Hread & Hin).
    apply (Hfree _ Hin). exists row. auto.
  - apply (values_NoDup _ _ _ Hrows). exact Hids.
Qed.

(** What the added rows make linked. *)
Lemma withLinksAdded_linked (workflowId : string) (tagIds : list string)
    (rows : list WorkflowsTags) (db : Db) (other tagId : string) :
  Forall2 (valueOf workflowId) tagIds rows ->
  linked (withLinksAdded rows db) other tagId <->
  linked db other tagId
  \/ (columnOf other = columnOf workflowId
      /\ exists requested, requested ∈ tagIds /\ columnOf tagId = columnOf requested).
Proof.
  intros Hrows. unfold linked, withLinksAdded.
  cbn [with_workflows_tags workflows_tags]. split.
  - intros (row & Hin & Hw & Ht). apply elem_of_app in Hin as [Hin | Hin].
    + left. exists row. auto.
    + right. apply (values_elem _ _ _ _ Hrows) in Hin as [Hw' Ht'].
      split; [congruence |].
      apply list_elem_of_fmap in Ht' as (requested & Hread & Hreq).
      exists requested. split; [exact Hreq | congruence].
  - intros [(row & Hin & Hw & Ht) | [Hsame (requested & Hreq & Hread)]].
    + exists row. rewrite elem_of_app. auto.
    + destruct (proj1 (list_elem_of_lookup _ _) Hreq) as [i Hi].
      destruct (Forall2_lookup_l _ _ _ _ _ Hrows Hi) as (row & Hrow & Hw & Ht).
      exists row. rewrite elem_of_app.
      split; [right; eapply list_elem_of_lookup_2; exact Hrow |].
      split; congruence.
Qed.

Lemma withLinksAdded_linksOf (workflowId : string) (tagIds : list string)
    (rows : list WorkflowsTags) (db : Db) (other : string) (t : ITagDb) :
  Forall2 (valueOf workflowId) tagIds rows ->
  columnOf other <> columnOf workflowId ->
  linksOf other (withLinksAdded rows db) t = linksOf other db t.
Proof.
  intros Hrows Hother. unfold linksOf, withLinksAdded.
  cbn [with_workflows_tags workflows_tags].
  rewrite !List.filter_app.
  rewrite (filter_none (fun link => bound other (link_workflowId link))
             (List.filter _ rows)); [apply app_nil_r |].
  intros link Hlink. apply list_elem_of_In, filter_In in Hlink as [Hlink _].
  apply list_elem_of_In, (values_elem _ _ _ _ Hrows) in Hlink as [Hw _].
  apply not_true_is_false. intros Hb. apply bound_true in Hb. congruence.
Qed.

Lemma getWorkflowTags_after_add (workflowId : string) (tagIds : list string)
    (rows : list WorkflowsTags) (db : Db) (other : string) :
  Forall2 (valueOf workflowId) tagIds rows ->
  columnOf other <> columnOf workflowId ->
  getWorkflowTags other (withLinksAdded rows db) = getWorkflowTags other db.
Proof.
  intros Hrows Hother. rewrite !getWorkflowTags_inner_join.
  change (tag_entity (withLinksAdded rows db)) with (tag_entity db).
  apply flat_map_ext. intros t.
  rewrite (withLinksAdded_linksOf _ _ _ _ _ t Hrows Hother). reflexivity.
Qed.

Lemma length_filter_exists {A : Type} (p : A -> bool) (l : list A) :
  (Z.of_nat (length (List.filter p l)) >? 0) = existsb p l.
Proof.
  induction l as [| x l IH]; [reflexivity |].
  simpl. destruct (p x); [| exact IH].
  simpl. rewrite Z.gtb_ltb. apply Z.ltb_lt. lia.
Qed.

Lemma checkRelated_related (workflowId tagId : string) (db : Db) :
  checkRelated workflowId tagId db =
  mkRun (inr (related db workflowId tagId)) db [SelectWorkflowsTags workflowId tagId].
Proof.
  unfold checkRelated. rewrite run_query_bind. unfold related.
  rewrite <- length_filter_exists. reflexivity.
Qed.

Lemma validateRelations_passed (workflowId : string) (tagIds : list string) (db : Db) :
  outcome (validateRelations workflowId tagIds db) = inr tt ->
  forall u, u ∈ tagIds -> ~ linked db workflowId u.
Proof.
  intros Hok.
  destruct (first_linked workflowId db tagIds)
    as [Hfree | (checked & tagId & rest & -> & Hfree & Hlinked)]; [exact Hfree |].
  rewrite validateRelations_stop in Hok by assumption. discriminate.
Qed.

End CreateRelations.

(** What a passed validation is worth. Let [validateRelations(W, tagIds)]
    return normally for a stored workflow and stored tags, on a link table
    that holds no pair twice. If the request names no tag twice (as the
    store reads the IDs), [createRelations(W, tagIds)] is accepted, adds
    exactly the rows of the request, and the table still holds no pair
    twice. If the request names a tag twice, which the validation does
    not look at, the store refuses the statement and nothing is added. *)
Theorem createRelations_after_validation (workflowId : string) (tagIds : list string)
    (db : Db) :
  tagIds <> [] ->
  workflowPresent db workflowId ->
  (forall tagId, tagId ∈ tagIds -> tagPresent db tagId) ->
  NoDup (workflows_tags db) ->
  outcome (validateRelations workflowId tagIds db) = inr tt ->
  (NoDup (columnOf <$> tagIds) ->
     exists db', createRelations workflowId tagIds db = Some (inr db')
       /\ NoDup (workflows_tags db')
       /\ (forall link, link ∈ workflows_tags db' <->
             link ∈ workflows_tags db
             \/ (columnOf workflowId = Some (link_workflowId link)
                 /\ Some (link_tagId link) ∈ columnOf <$> tagIds)))
  /\ (~ NoDup (columnOf <$> tagIds) ->
      exists e, createRelations workflowId tagIds db = Some (inl e)).
Proof.
  intros Hne Hworkflow Htags Hkey Hvalid.
  pose proof (validateRelations_passed _ _ _ Hvalid) as Hfree.
  split.
  - intros Hids.
    destruct (createRelations_accepted _ _ db Hne Hworkflow Htags Hfree Hids)
      as (rows & Hrows & Hcreate).
    exists (withLinksAdded rows db). split; [exact Hcreate |].
    unfold withLinksAdded. cbn [with_workflows_tags workflows_tags]. split.
    + apply NoDup_app. split; [exact Hkey |]. split.
      * intros link Hin Hrow. apply (values_elem _ _ _ _ Hrows) in Hrow as [Hw Ht].
        apply list_elem_of_fmap in Ht as (tagId & Hread & Hreq).
        apply (Hfree _ Hreq). exists link. auto.
      * apply (values_NoDup _ _ _ Hrows). exact Hids.
    + intros link. rewrite elem_of_app, (values_elem _ _ _ _ Hrows). reflexivity.
  - intros Hdup. destruct Hworkflow as (w & _ & Hw).
    destruct (relationValues_defined workflowId tagIds _ Hw) as (rows & Hrows).
    { intros tagId Hin. destruct (Htags _ Hin) as (t & _ & Ht).
      apply columnOf_numeral. eauto. }
    destruct (insertLinks_refused db rows (workflows_tags db)) as (e & He).
    { right. intros Hnodup. apply Hdup. apply (values_NoDup _ _ _ Hrows). exact Hnodup. }
    exists e. rewrite (createRelations_values _ _ rows db Hne Hrows), He. reflexivity.
Qed.

(** Workflow 7 has tag 1. Tags 2 and 3 pass the validation and are added;
    tag 2 named twice, as "2" and as "02", passes the validation too, and
    the store refuses the statement. *)
Lemma createRelations_after_validation_witness :
  let db := mkDb [mkTag 1 "ops" 0 0; mkTag 2 "idle" 0 0; mkTag 3 "new" 0 0]
                 [mkLink 7 1] [mkWorkflow 7 "sync"] [] [] in
  (exists db', createRelations "7" ["2"; "3"] db = Some (inr db')
               /\ NoDup (workflows_tags db'))
  /\ outcome (validateRelations "7" ["2"; "02"] db) = inr tt
  /\ (exists e, createRelations "7" ["2"; "02"] db = Some (inl e)).
Proof.
  intros db.
  assert (Hworkflow : workflowPresent db "7").
  { exists (mkWorkflow 7 "sync"). split; [left | reflexivity]. }
  assert (Hkey : NoDup (workflows_tags db)).
  { vm_compute. repeat constructor. rewrite elem_of_nil. tauto. }
  assert (Htag2 : tagPresent db "2").
  { exists (mkTag 2 "idle" 0 0). split; [right; left | reflexivity]. }
  assert (Htag02 : tagPresent db "02").
  { exists (mkTag 2 "idle" 0 0). split; [right; left | reflexivity]. }
  assert (Htag3 : tagPresent db "3").
  { exists (mkTag 3 "new" 0 0). split; [right; right; left | reflexivity]. }
  split; [| split; [reflexivity |]].
  - destruct (createRelations_after_validation "7" ["2"; "3"] db) as [Hok _];
      [discriminate | exact Hworkflow | | exact Hkey | reflexivity |].
    + intros tagId Hin. apply elem_of_cons in Hin as [-> | Hin]; [exact Htag2 |].
      apply list_elem_of_singleton in Hin. subst tagId. exact Htag3.
    + destruct Hok as (db' & Hcreate & Hnodup & _).
      * vm_compute. repeat constructor;
          rewrite ?elem_of_cons, ?elem_of_nil; intuition discriminate.
      * exists db'. split; assumption.
  - destruct (createRelations_after_validation "7" ["2"; "02"] db) as [_ Hrefused];
      [discriminate | exact Hworkflow | | exact Hkey | reflexivity |].
    + intros tagId Hin. apply elem_of_cons in Hin as [-> | Hin]; [exact Htag2 |].
      apply list_elem_of_singleton in Hin. subst tagId. exact Htag02.
    + apply Hrefused. vm_compute. intros Hnodup.
      apply NoDup_cons in Hnodup as [Hfresh _]. apply Hfresh. left.
Defined.

(** What an accepted [createRelations(W, tagIds)] leaves behind. For a
    stored workflow and stored tags, none related to the workflow yet and
    none named twice, the statement is accepted; afterwards every tag of
    the request is related to W, so [checkRelated] answers true for it and
    [validateRelations] on the same request stops at its first ID with the
    conflict error; a pair is linked exactly when it was linked before or
    is read as W with a tag of the request; the tags listed for workflows
    read as other than W, and the other tables, are as before. *)
Theorem createRelations_relates (workflowId : string) (tagIds : list string) (db : Db) :
  tagIds <> [] ->
  workflowPresent db workflowId ->
  (forall tagId, tagId ∈ tagIds -> tagPresent db tagId) ->
  (forall tagId, tagId ∈ tagIds -> ~ linked db workflowId tagId) ->
  NoDup (columnOf <$> tagIds) ->
  exists db', createRelations workflowId tagIds db = Some (inr db')
  /\ (forall tagId, tagId ∈ tagIds ->
        checkRelated workflowId tagId db' =
        mkRun (inr true) db' [SelectWorkflowsTags workflowId tagId])
  /\ (forall tagId rest, tagIds = tagId :: rest ->
        validateRelations workflowId tagIds db' =
        mkRun (inl (alreadyRelated workflowId tagId)) db'
              [SelectWorkflowsTags workflowId tagId])
  /\ (forall other tagId,
        linked db' other tagId <->
        linked db other tagId
        \/ (columnOf other = columnOf workflowId
            /\ exists requested, requested ∈ tagIds /\ columnOf tagId = columnOf requested))
  /\ (forall other, isNumeral other = true -> columnOf other <> columnOf workflowId ->
        getWorkflowTags other db' ≡ₚ getWorkflowTags other db)
  /\ (tag_entity db' = tag_entity db /\ workflow_entity db' = workflow_entity db
      /\ shared_credentials db' = shared_credentials db /\ roles db' = roles db).
Proof.
  intros Hne Hworkflow Htags Hfree Hids.
  destruct (createRelations_accepted _ _ db Hne Hworkflow Htags Hfree Hids)
    as (rows & Hrows & Hcreate).
  exists (withLinksAdded rows db). split; [exact Hcreate |].
  assert (Hnow : forall tagId, tagId ∈ tagIds ->
            linked (withLinksAdded rows db) workflowId tagId).
  { intros tagId Hin. apply (withLinksAdded_linked _ _ _ _ _ _ Hrows).
    right. split; [reflexivity |]. exists tagId. auto. }
  split; [| split; [| split; [| split]]].
  - intros tagId Hin. rewrite checkRelated_related.
    rewrite (proj2 (related_linked _ _ _) (Hnow _ Hin)). reflexivity.
  - intros tagId rest ->.
    apply (validateRelations_stop workflowId (withLinksAdded rows db) [] tagId rest).
    + intros u Hu. inversion Hu.
    + apply Hnow. left.
  - intros other tagId. apply (withLinksAdded_linked _ _ _ _ _ _ Hrows).
  - intros other _ Hother.
    rewrite (getWorkflowTags_after_add _ _ _ _ _ Hrows Hother). reflexivity.
  - repeat split.
Qed.

Lemma createRelations_relates_witness :
  let db := mkDb [mkTag 1 "ops" 0 0; mkTag 2 "idle" 0 0] [mkLink 8 2]
                 [mkWorkflow 7 "sync"; mkWorkflow 8 "report"] [] [] in
  exists db', createRelations "7" ["2"; "1"] db = Some (inr db')
    /\ outcome (checkRelated "7" "01" db') = inr true
    /\ outcome (validateRelations "7" ["2"; "1"] db') = inl (alreadyRelated "7" "2")
    /\ getWorkflowTags "8" db' ≡ₚ [mkRawTag 2 "idle"].
Proof.
  intros db.
  destruct (createRelations_relates "7" ["2"; "1"] db)
    as (db' & Hcreate & Hcheck & Hvalidate & Hlinked & Hothers & _).
  - discriminate.
  - exists (mkWorkflow 7 "sync"). split; [left | reflexivity].
  - intros tagId Hin. apply elem_of_cons in Hin as [-> | Hin].
    + exists (mkTag 2 "idle" 0 0). split; [right; left | reflexivity].
    + apply list_elem_of_singleton in Hin. subst tagId.
      exists (mkTag 1 "ops" 0 0). split; [left | reflexivity].
  - intros tagId Hin (link & Hlink & Hw & _).
    apply list_elem_of_singleton in Hlink. subst link. discriminate.
  - vm_compute. repeat constructor; rewrite ?elem_of_cons, ?elem_of_nil; intuition discriminate.
  - exists db'. split; [exact Hcreate |]. split; [| split].
    + assert (Hrel : linked db' "7" "01").
      { apply Hlinked. right. split; [reflexivity |]. exists "1". split; [right; left | reflexivity]. }
      rewrite checkRelated_related, (proj2 (related_linked _ _ _) Hrel). reflexivity.
    + rewrite (Hvalidate "2" ["1"] eq_refl). reflexivity.
    + rewrite (Hothers "8" eq_refl) by discriminate. reflexivity.
Defined.

(** * Replacing the tags of a workflow *)

Section ReplaceTags.

(** The stored tags that a request names are as many as the request. *)
Lemma requested_length (tags : list ITagDb) (tagIds : list string) (p : ITagDb -> bool) :
  NoDup (tag_id <$> tags) -> NoDup (columnOf <$> tagIds) ->
  (forall tagId, tagId ∈ tagIds -> exists t, t ∈ tags /\ columnOf tagId = Some (tag_id t)) ->
  (forall t, p t = true <-> Some (tag_id t) ∈ columnOf <$> tagIds) ->
  length (List.filter p tags) = length tagIds.
Proof.
  intros Hkey Hids Hstored Hp.
  set (chosen := List.filter p tags).
  assert (Hchosen : forall t, t ∈ chosen <-> t ∈ tags /\ Some (tag_id t) ∈ columnOf <$> tagIds).
  { intros t. unfold chosen.
    rewrite list_elem_of_In, filter_In, Hp, <- list_elem_of_In. reflexivity. }
  rewrite <- (length_fmap (fun t => Some (tag_id t)) chosen),
    <- (length_fmap columnOf tagIds).
  apply Permutation_length, NoDup_Permutation; [| exact Hids |].
  - apply NoDup_fmap_2_strong.
    + intros x y Hx Hy Heq. injection Heq as Heq.
      apply Hchosen in Hx as [Hx _], Hy as [Hy _].
      exact (tag_key_inj tags x y Hkey Hx Hy Heq).
    + apply NoDup_ListNoDup, List.NoDup_filter, NoDup_ListNoDup.
      eapply NoDup_fmap_1. exact Hkey.
  - intros o. rewrite list_elem_of_fmap. split.
    + intros (t & -> & Ht). apply Hchosen in Ht as [_ Ht]. exact Ht.
    + intros Hin. apply list_elem_of_fmap in Hin as Hreq.
      destruct Hreq as (tagId & -> & Hreq).
      destruct (Hstored _ Hreq) as (t & Ht & Hread).
      exists t. split; [exact Hread |]. apply Hchosen. split; [exact Ht |].
      rewrite <- Hread. exact Hin.
Qed.

End ReplaceTags.

(** Replacing the tags of a workflow, the way the callers do it:
    [removeRelations(W)] and then [createRelations(W, tagIds)]. For a
    stored workflow and a request of stored tags that names no tag twice
    (tags and links identified by their keys), the insert is accepted
    whatever W was linked to before, and [getWorkflowTags(W)] then lists
    exactly the requested tags, each once, as many rows as IDs; the tags
    listed for workflows read as other than W are as before. *)
Theorem replace_workflow_tags (workflowId : string) (tagIds : list string) (db : Db) :
  NoDup (workflows_tags db) ->
  NoDup (tag_id <$> tag_entity db) ->
  tagIds <> [] ->
  workflowPresent db workflowId ->
  (forall tagId, tagId ∈ tagIds -> tagPresent db tagId) ->
  NoDup (columnOf <$> tagIds) ->
  exists db', createRelations workflowId tagIds (removeRelations workflowId db) = Some (inr db')
  /\ (forall row, row ∈ getWorkflowTags workflowId db' <->
        exists t, t ∈ tag_entity db /\ Some (tag_id t) ∈ columnOf <$> tagIds
                  /\ row = rawTag t)
  /\ NoDup (getWorkflowTags workflowId db')
  /\ length (getWorkflowTags workflowId db') = length tagIds
  /\ (forall other, isNumeral other = true -> columnOf other <> columnOf workflowId ->
        getWorkflowTags other db' ≡ₚ getWorkflowTags other db).
Proof.
  intros Hlinks Htags Hne Hworkflow Hstored Hids.
  set (cleared := removeRelations workflowId db).
  destruct (createRelations_accepted workflowId tagIds cleared Hne Hworkflow Hstored)
    as (rows & Hrows & Hcreate); [| exact Hids |].
  { intros tagId _. apply removeRelations_unlinked. }
  exists (withLinksAdded rows cleared). split; [exact Hcreate |].
  assert (Hkey : NoDup (workflows_tags (withLinksAdded rows cleared))).
  { unfold withLinksAdded. cbn [with_workflows_tags workflows_tags].
    apply NoDup_app. split; [| split].
    - apply NoDup_ListNoDup, List.NoDup_filter, NoDup_ListNoDup. exact Hlinks.
    - intros link Hin Hrow. apply (values_elem _ _ _ _ Hrows) in Hrow as [Hw _].
      apply removeRelations_links in Hin as [_ Hother]. contradiction.
    - apply (values_NoDup _ _ _ Hrows). exact Hids. }
  assert (Hlinked : forall t,
    linked (withLinksAdded rows cleared) workflowId (toString (tag_id t))
    <-> Some (tag_id t) ∈ columnOf <$> tagIds).
  { intros t. rewrite (withLinksAdded_linked _ _ _ _ _ _ Hrows), columnOf_toString. split.
    - intros [Hold | [_ (requested & Hreq & Hread)]].
      + exfalso. exact (removeRelations_unlinked workflowId db _ Hold).
      + rewrite Hread. apply list_elem_of_fmap. eauto.
    - intros Hin. right. split; [reflexivity |].
      apply list_elem_of_fmap in Hin as (requested & Hread & Hreq). eauto. }
  split; [| split; [| split]].
  - intros row. rewrite getWorkflowTags_elem.
    split; intros (t & Ht & Hrel & ->); exists t; (split; [exact Ht |]);
      (split; [apply Hlinked; exact Hrel | reflexivity]).
  - apply getWorkflowTags_NoDup; [exact Hkey | exact Htags].
  - rewrite getWorkflowTags_closed by exact Hkey. rewrite length_map.
    apply requested_length; [exact Htags | exact Hids | exact Hstored |].
    intros t. rewrite related_linked. apply Hlinked.
  - intros other _ Hother.
    rewrite (getWorkflowTags_after_add _ _ _ _ _ Hrows Hother).
    unfold cleared. rewrite getWorkflowTags_after_remove by exact Hother. reflexivity.
Qed.

(** Workflow 7 had tag 3; after the replacement by tags 2 and 1 it has
    those two, and workflow 8 keeps its tag. *)
Lemma replace_workflow_tags_witness :
  let db := mkDb [mkTag 1 "ops" 0 0; mkTag 2 "idle" 0 0; mkTag 3 "old" 0 0]
                 [mkLink 7 3; mkLink 8 3]
                 [mkWorkflow 7 "sync"; mkWorkflow 8 "report"] [] [] in
  exists db', createRelations "7" ["2"; "1"] (removeRelations "7" db) = Some (inr db')
    /\ length (getWorkflowTags "7" db') = 2%nat
    /\ mkRawTag 1 "ops" ∈ getWorkflowTags "7" db'
    /\ mkRawTag 2 "idle" ∈ getWorkflowTags "7" db'
    /\ getWorkflowTags "8" db' ≡ₚ [mkRawTag 3 "old"].
Proof.
  intros db.
  destruct (replace_workflow_tags "7" ["2"; "1"] db)
    as (db' & Hcreate & Hrows & _ & Hlength & Hothers).
  - vm_compute. repeat constructor; rewrite ?elem_of_cons, ?elem_of_nil; intuition discriminate.
  - vm_compute. repeat constructor; rewrite ?elem_of_cons, ?elem_of_nil; intuition discriminate.
  - discriminate.
  - exists (mkWorkflow 7 "sync"). split; [left | reflexivity].
  - intros tagId Hin. apply elem_of_cons in Hin as [-> | Hin].
    + exists (mkTag 2 "idle" 0 0). split; [right; left | reflexivity].
    + apply list_elem_of_singleton in Hin. subst tagId.
      exists (mkTag 1 "ops" 0 0). split; [left | reflexivity].
  - vm_compute. repeat constructor; rewrite ?elem_of_cons, ?elem_of_nil; intuition discriminate.
  - exists db'. split; [exact Hcreate |]. split; [exact Hlength |].
    split; [| split].
    + apply Hrows. exists (mkTag 1 "ops" 0 0).
      split; [left |]. split; [right; left | reflexivity].
    + apply Hrows. exists (mkTag 2 "idle" 0 0).
      split; [right; left |]. split; [left | reflexivity].
    + rewrite (Hothers "8" eq_refl) by discriminate. reflexivity.
Defined.

(** * How [share] and [unshare] change what [isOwned] answers *)

Section Grants.

Lemma find_filter_keep {A : Type} (p q : A -> bool) (l : list A) :
  (forall x, p x = true -> q x = true) ->
  List.find p (List.filter q l) = List.find p l.
Proof.
  intros Himp. induction l as [| x l IH]; [reflexivity |].
  simpl. destruct (p x) eqn:Hp.
  - rewrite (Himp x Hp). simpl. rewrite Hp. reflexivity.
  - destruct (q x); simpl; [rewrite Hp |]; exact IH.
Qed.

Lemma find_filter_drop {A : Type} (p : A -> bool) (l : list A) :
  List.find p (List.filter (fun x => negb (p x)) l) = None.
Proof.
  induction l as [| x l IH]; [reflexivity |].
  simpl. destruct (p x) eqn:Hp; simpl; [| rewrite Hp]; exact IH.
Qed.

Lemma find_replace {A : Type} (p key : A -> bool) (e : A) (l : list A) :
  (forall x, key x = true -> p x = false) -> p e = false ->
  List.find p (List.map (fun x => if key x then e else x) l) = List.find p l.
Proof.
  intros Hkey He. induction l as [| x l IH]; [reflexivity |].
  simpl. destruct (key x) eqn:Hx.
  - rewrite He, (Hkey x Hx). exact IH.
  - destruct (p x); [reflexivity | exact IH].
Qed.

Lemma find_snoc_miss {A : Type} (p : A -> bool) (e : A) (l : list A) :
  p e = false -> List.find p (l ++ [e]) = List.find p l.
Proof.
  intros He. induction l as [| x l IH]; simpl; [rewrite He; reflexivity |].
  destruct (p x); [reflexivity | exact IH].
Qed.

(** Two [where] clauses on different (credential, user) pairs match no
    common row. *)
Lemma sharingOf_apart (credentialId credentialId' userId userId' : string)
    (row : SharedCredentials) :
  ~ (userId' = userId /\ credentialId' = credentialId) ->
  sharingOf credentialId (Some userId) row = true ->
  sharingOf credentialId' (Some userId') row = false.
Proof.
  intros Hapart Hrow. apply not_true_is_false. intros Hrow'.
  unfold sharingOf in Hrow, Hrow'.
  apply andb_true_iff in Hrow as [Hc Hu], Hrow' as [Hc' Hu'].
  apply bool_decide_eq_true in Hc, Hu, Hc', Hu'.
  apply Hapart. split; congruence.
Qed.

Lemma save_find (entity : SharedCredentials) (rows : list SharedCredentials)
    (credentialId userId : string) :
  ~ (userId = user_id (user entity) /\ credentialId = credentials_id (credentials entity)) ->
  List.find (sharingOf credentialId (Some userId)) (save entity rows)
  = List.find (sharingOf credentialId (Some userId)) rows.
Proof.
  intros Hapart.
  assert (Hentity : sharingOf credentialId (Some userId) entity = false).
  { apply not_true_is_false. intros Hrow. unfold sharingOf in Hrow.
    apply andb_true_iff in Hrow as [Hc Hu]. apply bool_decide_eq_true in Hc, Hu.
    apply Hapart. split; congruence. }
  unfold save. destruct (existsb _ rows).
  - apply find_replace; [| exact Hentity].
    intros row Hrow. eapply sharingOf_apart; [exact Hapart | exact Hrow].
  - apply find_snoc_miss. exact Hentity.
Qed.

End Grants.

(** [unshare(C, U)] revokes: afterwards [isOwned(U, C)] answers
    [{ownsCredential: false}], whatever record U held for C; and for every
    other pair of a user and a credential [isOwned] answers what it
    answered before. *)
Theorem unshare_revokes (credentialId shareeId : string) (db : Db) :
  let db' := store (unshare credentialId shareeId db) in
  (forall u, user_id u = shareeId ->
     outcome (isOwned u credentialId db') =
     inr {| ownsCredential := false; credential := None |})
  /\ (forall u credentialId',
        ~ (user_id u = shareeId /\ credentialId' = credentialId) ->
        outcome (isOwned u credentialId' db') = outcome (isOwned u credentialId' db)).
Proof.
  intros db'. subst db'. rewrite unshare_run. cbn [store]. split.
  - intros u <-. rewrite isOwned_run. cbn [outcome with_shared_credentials shared_credentials].
    rewrite find_filter_drop. reflexivity.
  - intros u credentialId' Hapart. rewrite !isOwned_run.
    cbn [outcome with_shared_credentials shared_credentials].
    rewrite find_filter_keep; [reflexivity |].
    intros row Hrow. apply negb_true_iff.
    eapply sharingOf_apart; [| exact Hrow].
    intros [Hu Hc]. apply Hapart. split; congruence.
Qed.

(** Bob and Eve hold a share of the credential; after Bob's is revoked he
    is told he does not own it, and Eve is told what she was told. *)
Lemma unshare_revokes_witness :
  let member := mkRole "global" "member" in
  let bob := mkUser "bob" member in
  let eve := mkUser "eve" member in
  let c := mkCredentials "c1" "secret" in
  let db := mkDb [] [] [] [mkSharing c bob credentialEditor; mkSharing c eve credentialEditor]
                 [] in
  outcome (isOwned bob "c1" (store (unshare "c1" "bob" db)))
    = inr {| ownsCredential := false; credential := None |}
  /\ outcome (isOwned eve "c1" (store (unshare "c1" "bob" db)))
     = inr {| ownsCredential := true; credential := Some c |}.
Proof.
  intros member bob eve c db.
  destruct (unshare_revokes "c1" "bob" db) as [Hrevoked Hothers].
  split.
  - apply Hrevoked. reflexivity.
  - rewrite (Hothers eve "c1"); [reflexivity |]. intros [Hu _]. discriminate.
Defined.

(** [share(C, U)] grants nothing to anybody else: whether it succeeds or
    throws, [isOwned] answers for every other pair of a user and a
    credential what it answered before. *)
Theorem share_touches_one_pair (c : CredentialsEntity) (sharee u : User)
    (credentialId : string) (db : Db) :
  ~ (user_id u = user_id sharee /\ credentialId = credentials_id c) ->
  outcome (isOwned u credentialId (store (share c sharee db)))
  = outcome (isOwned u credentialId db).
Proof.
  intros Hapart. rewrite share_run, !isOwned_run.
  destruct (bool_decide (credentialEditor ∈ roles db)); [| reflexivity].
  cbn [store outcome with_shared_credentials shared_credentials].
  rewrite save_find; [reflexivity |]. exact Hapart.
Qed.

(** Eve holds no record for the credential; sharing it with Bob leaves her
    without one. *)
Lemma share_touches_one_pair_witness :
  let member := mkRole "global" "member" in
  let bob := mkUser "bob" member in
  let eve := mkUser "eve" member in
  let c := mkCredentials "c1" "secret" in
  let db := mkDb [] [] [] [] [credentialEditor] in
  outcome (isOwned eve "c1" (store (share c bob db)))
  = inr {| ownsCredential := false; credential := None |}.
Proof.
  intros member bob eve c db.
  rewrite (share_touches_one_pair c bob eve "c1" db); [reflexivity |].
  intros [Hu _]. discriminate.
Defined.

(** * The validation and the count, after other operations *)

(** Once [removeRelations(W)] has run, [validateRelations(W, tagIds)]
    returns normally for every request, after asking about each ID in
    order: the replacement of a workflow's tags never meets the conflict
    error. *)
Theorem validateRelations_after_remove (workflowId : string) (tagIds : list string) (db : Db) :
  let db' := removeRelations workflowId db in
  validateRelations workflowId tagIds db' =
  mkRun (inr tt) db' (SelectWorkflowsTags workflowId <$> tagIds).
Proof.
  intros db'. apply validateRelations_pass.
  intros u _. apply removeRelations_unlinked.
Qed.

Section UsageAndTags.

Variable db : Db.
Hypothesis keys : primaryKeys db.

(** The rows of the aggregate query, tag by tag. *)
Lemma getAllTagsWithUsageCount_by_tag :
  outcome (getAllTagsWithUsageCount db) =
  inr ((fun t => {| usage_id := tag_id t;
                    usage_name := tag_name t;
                    usageCount := countWorkflows (tagRows db t) |}) <$> tag_entity db).
Proof.
  unfold getAllTagsWithUsageCount, query. cbn [outcome]. f_equal.
  rewrite tagsJoinWorkflows_by_tag.
  replace (tagRows db <$> tag_entity db)
    with (snd <$> ((fun t => (tag_id t, tagRows db t)) <$> tag_entity db))
    by (rewrite <- list_fmap_compose; reflexivity).
  rewrite groupBy_blocks.
  - change (@List.map) with (@fmap list _). rewrite <- list_fmap_compose.
    apply list_fmap_ext. intros i t _. unfold compose. cbn [fst snd].
    destruct (tagRows_head db t) as (r & rows & Hrows & Htag).
    f_equal. rewrite Hrows. simpl. rewrite Htag. reflexivity.
  - rewrite <- list_fmap_compose. apply (tag_key db keys).
  - intros k b Hin. apply list_elem_of_fmap in Hin as (t & Heq & _).
    injection Heq as -> ->. split.
    + destruct (tagRows_head db t) as (r & rows & -> & _). discriminate.
    + intros r Hr. rewrite (tagRows_tag db t r Hr). reflexivity.
Qed.

(** A stored workflow is linked to a tag when its tags hold the tag. *)
Lemma link_in_workflow_tags (t : ITagDb) (w : WorkflowEntity) :
  t ∈ tag_entity db ->
  mkLink (workflow_id w) (tag_id t) ∈ workflows_tags db <->
  rawTag t ∈ getWorkflowTags (toString (workflow_id w)) db.
Proof.
  intros Ht. rewrite getWorkflowTags_elem, <- linked_row. split.
  - intros Hlinked. exists t. auto.
  - intros (t' & _ & Hlinked & Hraw).
    assert (Hid : tag_id t = tag_id t') by (injection Hraw; auto).
    rewrite Hid. exact Hlinked.
Qed.

Lemma countWorkflows_listed (t : ITagDb) :
  t ∈ tag_entity db ->
  countWorkflows (tagRows db t) =
  Z.of_nat (length (filter
    (fun w => rawTag t ∈ getWorkflowTags (toString (workflow_id w)) db) (workflow_entity db))).
Proof.
  intros Ht. rewrite (countWorkflows_linked db t keys). f_equal.
  unfold linkedWorkflows. rewrite size_list_to_set, length_fmap.
  - f_equal. apply list_filter_iff. intros w. apply link_in_workflow_tags. exact Ht.
  - eapply sublist_NoDup; [exact (workflow_key db keys) |].
    apply fmap_sublist. apply sublist_filter.
Qed.

End UsageAndTags.

(** The count and the listing agree: with the keys of the three tables in
    place, the [usageCount] that [getAllTagsWithUsageCount] reports for a
    tag is the number of stored workflows whose [getWorkflowTags] holds
    that tag. *)
Theorem usageCount_counts_workflow_tags (db : Db) :
  primaryKeys db ->
  outcome (getAllTagsWithUsageCount db) =
  inr ((fun t =>
          {| usage_id := tag_id t;
             usage_name := tag_name t;
             usageCount :=
               Z.of_nat (length (filter
                 (fun w => rawTag t ∈ getWorkflowTags (toString (workflow_id w)) db)
                 (workflow_entity db))) |})
        <$> tag_entity db).
Proof.
  intros Hkeys. rewrite (getAllTagsWithUsageCount_by_tag db Hkeys). f_equal.
  apply list_fmap_ext. intros i t Hi. f_equal.
  apply countWorkflows_listed; [exact Hkeys |].
  eapply list_elem_of_lookup_2. exact Hi.
Qed.

(** Tag 1 is in the tags of workflows 10 and 11 and counts 2; the link to
    workflow 12, which is not stored, is not counted; tag 2 counts 0. *)
Lemma usageCount_counts_workflow_tags_witness :
  let db := mkDb [mkTag 1 "ops" 0 0; mkTag 2 "idle" 0 0]
                 [mkLink 10 1; mkLink 11 1; mkLink 12 1]
                 [mkWorkflow 10 "sync"; mkWorkflow 11 "report"] [] [] in
  outcome (getAllTagsWithUsageCount db) = inr [mkTagUsage 1 "ops" 2; mkTagUsage 2 "idle" 0]
  /\ getWorkflowTags "10" db = [mkRawTag 1 "ops"]
  /\ getWorkflowTags "11" db = [mkRawTag 1 "ops"].
Proof.
  intros db. split; [| split; reflexivity].
  rewrite (usageCount_counts_workflow_tags db).
  - vm_compute. reflexivity.
  - split; vm_compute; repeat constructor;
      rewrite ?elem_of_cons, ?elem_of_nil; intuition discriminate.
Defined.
